(** * Connection strings of the edge-config client

    A shallow embedding of the connection-string parser of
    [packages/edge-config/src/utils/index.ts]
    ([parseVercelConnectionString], [parseExternalConnectionString] and
    [parseConnectionString]) together with the part of the platform's
    [URL] class that these three functions observe.

    The [URL] constructor belongs to the JavaScript platform, not to the
    package.  The parser functions are therefore embedded over an
    arbitrary constructor [new_URL]; the general theorems hold for every
    such constructor.  A small reference constructor ([BasicURL.parse]),
    which reads back the serialization of every URL it returns
    ([parse_toString]), instantiates them on concrete connection
    strings. *)

From Stdlib Require Import String Ascii List Bool NArith ZArith Lia.
From Stdlib Require Import DecimalString DecimalN DecimalPos.
Import ListNotations.

Local Open Scope string_scope.
Local Open Scope bool_scope.

(** ** JavaScript values and string methods used by the parser

    A [string] holds the UTF-8 encoding of a JavaScript string.  The
    parser only compares strings, looks for ASCII prefixes and splits
    at ASCII characters, which read the same on the encoding; the
    length of a string is counted in UTF-16 code units
    ([utf16_length]). *)

Module JS.

(** The outcome of evaluating a piece of JavaScript: a value, or an
    exception travelling upwards. *)
Inductive completion (A : Type) : Type :=
| Normal (a : A)
| Throw (err : string).

Arguments Normal {A} a.
Arguments Throw {A} err.

Definition bind {A B : Type} (m : completion A) (k : A -> completion B)
  : completion B :=
  match m with
  | Normal a => k a
  | Throw e => Throw e
  end.

(** [try { body } catch { handler }], the handler ignoring the error. *)
Definition try_catch {A : Type} (body handler : completion A)
  : completion A :=
  match body with
  | Normal a => Normal a
  | Throw _ => handler
  end.

(** [s.startsWith(p)] *)
Fixpoint startsWith (s p : string) : bool :=
  match p with
  | EmptyString => true
  | String b p' =>
      match s with
      | EmptyString => false
      | String a s' => Ascii.eqb a b && startsWith s' p'
      end
  end.

(** [s.split(sep)] for a separator of one character.  The result is
    never empty: the empty string splits into one empty piece. *)
Fixpoint split (sep : ascii) (s : string) : list string :=
  match s with
  | EmptyString => [""]
  | String a s' =>
      if Ascii.eqb a sep then "" :: split sep s'
      else match split sep s' with
           | piece :: pieces => String a piece :: pieces
           | [] => [String a ""]
           end
  end.

(** [s.includes(c)] for one character. *)
Fixpoint includes (s : string) (c : ascii) : bool :=
  match s with
  | EmptyString => false
  | String a s' => Ascii.eqb a c || includes s' c
  end.

(** [arr[i]]: [undefined] past the end. *)
Definition index {A : Type} (arr : list A) (i : nat) : option A :=
  nth_error arr i.

(** Truthiness of a value of type [string | null | undefined]:
    only a non-empty string is truthy. *)
Definition truthy (v : option string) : bool :=
  match v with
  | Some (String _ _) => true
  | _ => false
  end.

(** [v || d] for a string default. *)
Definition or_default (v : option string) (d : string) : string :=
  match v with
  | Some (String a s) => String a s
  | _ => d
  end.

(** [v || null] *)
Definition or_null (v : option string) : option string :=
  if truthy v then v else None.

End JS.

Arguments JS.index : simpl never.
Arguments JS.startsWith : simpl never.

Notation "x <- m ;; k" := (JS.bind m (fun x => k))
  (at level 61, m at next level, right associativity).

(** ** The URL object

    The state of a platform [URL] object: the components of its URL
    record, already serialized, and the name-value list of its
    [searchParams] object. *)

Module URL.

Record t : Type := mk {
  scheme : string;
  username : string;
  password : string;
  hostname : option string;
  port : option N;
  path : string;
  query : option string;
  fragment : option string;
  query_list : list (string * string)
}.

Definition serialize_port (p : N) : string :=
  NilEmpty.string_of_uint (N.to_uint p).

(** The [protocol] getter: the scheme followed by a colon. *)
Definition protocol (u : t) : string := scheme u ++ ":".

(** The [host] getter: host name and, when there is one, the port. *)
Definition host (u : t) : string :=
  match hostname u with
  | None => ""
  | Some h =>
      match port u with
      | None => h
      | Some p => h ++ ":" ++ serialize_port p
      end
  end.

(** The [pathname] getter. *)
Definition pathname (u : t) : string := path u.

Fixpoint first_value (name : string) (l : list (string * string))
  : option string :=
  match l with
  | [] => None
  | (n, v) :: l' => if n =? name then Some v else first_value name l'
  end.

(** [url.searchParams.get(name)]: the value of the first pair with
    that name, [null] when there is none. *)
Definition searchParams_get (u : t) (name : string) : option string :=
  first_value name (query_list u).

(** The text without the spaces at its end. *)
Fixpoint strip_trailing_spaces (s : string) : string :=
  match s with
  | EmptyString => ""
  | String a s' =>
      let rest := strip_trailing_spaces s' in
      if Ascii.eqb a " " && (rest =? "") then "" else String a rest
  end.

(** A path is opaque when it is one text rather than a list of
    segments; serialized, a list of segments is empty or starts with a
    slash, and an opaque path never starts with one. *)
Definition has_opaque_path (u : t) : bool :=
  negb (JS.startsWith (path u) "/").

(** The path once the query is null: an opaque path loses the spaces at
    its end when the URL has no fragment either. *)
Definition cleared_path (u : t) : string :=
  if has_opaque_path u
     && match fragment u with Some _ => false | None => true end
  then strip_trailing_spaces (path u)
  else path u.

(** [url.search = ''] : the query becomes null, the list of the
    [searchParams] object is emptied, and the spaces at the end of an
    opaque path are stripped when there is no fragment. *)
Definition clear_search (u : t) : t :=
  mk (scheme u) (username u) (password u) (hostname u) (port u)
     (cleared_path u) None (fragment u) [].

Definition includes_credentials (u : t) : bool :=
  negb (username u =? "") || negb (password u =? "").

Definition credentials (u : t) : string :=
  if includes_credentials u
  then username u
       ++ (if password u =? "" then "" else ":" ++ password u) ++ "@"
  else "".

(** A component that is written after its mark when it is not null. *)
Definition marked (mark : ascii) (component : option string) : string :=
  match component with
  | Some text => String mark text
  | None => ""
  end.

Definition port_suffix (u : t) : string :=
  marked ":" (option_map serialize_port (port u)).

Definition authority (u : t) : string :=
  match hostname u with
  | Some h => "//" ++ credentials u ++ h ++ port_suffix u
  | None => if JS.startsWith (path u) "//" then "/." else ""
  end.

Definition query_suffix (u : t) : string := marked "?" (query u).

Definition fragment_suffix (u : t) : string := marked "#" (fragment u).

(** [url.toString()], the URL serializer. *)
Definition toString (u : t) : string :=
  scheme u ++ ":" ++ authority u ++ path u
  ++ query_suffix u ++ fragment_suffix u.

(** No component other than the query holds a question mark. *)
Definition question_mark_free (u : t) : Prop :=
  JS.includes (scheme u) "?" = false
  /\ JS.includes (username u) "?" = false
  /\ JS.includes (password u) "?" = false
  /\ (forall h, hostname u = Some h -> JS.includes h "?" = false)
  /\ JS.includes (path u) "?" = false
  /\ (forall f, fragment u = Some f -> JS.includes f "?" = false).

End URL.

(** ** The connection descriptor ([Connection] of [../types]) *)

Inductive ConnectionType : Type := vercel | external.

Record Connection : Type := mkConnection {
  type : ConnectionType;
  baseUrl : string;
  id : string;
  version : string;
  token : string
}.

(** ** The parser *)

Section Parser.

(** [new URL(text)]: the URL object, or the [TypeError] thrown for a
    text that is not an absolute URL. *)
Variable new_URL : string -> JS.completion URL.t.

(** The statements of [parseVercelConnectionString] that follow
    [const url = new URL(text)]. *)
Definition vercelConnection (url : URL.t) : option Connection :=
  (* if (url.host !== 'edge-config.vercel.com') return null; *)
  if negb (URL.host url =? "edge-config.vercel.com") then None
  (* if (url.protocol !== 'https:') return null; *)
  else if negb (URL.protocol url =? "https:") then None
  (* if (!url.pathname.startsWith('/ecfg')) return null; *)
  else if negb (JS.startsWith (URL.pathname url) "/ecfg") then None
  else
    (* const id = url.pathname.split('/')[1]; if (!id) return null; *)
    let id := JS.index (JS.split "/" (URL.pathname url)) 1 in
    if negb (JS.truthy id) then None
    else
      (* const token = url.searchParams.get('token');
         if (!token || token === '') return null; *)
      let token := URL.searchParams_get url "token" in
      match id, token with
      | Some id, Some token =>
          if negb (JS.truthy (Some token)) || (token =? "") then None
          else Some {| type := vercel;
                       baseUrl := "https://edge-config.vercel.com/" ++ id;
                       id := id;
                       version := "1";
                       token := token |}
      | _, _ => None
      end.

(** [try { const url = new URL(text); ... } catch { return null; }] *)
Definition parseVercelConnectionString (text : string)
  : JS.completion (option Connection) :=
  JS.try_catch
    (url <- new_URL text ;; JS.Normal (vercelConnection url))
    (JS.Normal None).

(** The statements of [parseExternalConnectionString] that follow
    [const url = new URL(connectionString)]. *)
Definition externalConnection (url : URL.t) : option Connection :=
  (* let id = url.searchParams.get('id'); *)
  let id := URL.searchParams_get url "id" in
  (* const token = url.searchParams.get('token'); *)
  let token := URL.searchParams_get url "token" in
  (* const version = url.searchParams.get('version') || '1'; *)
  let version := JS.or_default (URL.searchParams_get url "version") "1" in
  (* if (!id || url.pathname.startsWith('/ecfg_'))
       id = url.pathname.split('/')[1] || null; *)
  let id :=
    if negb (JS.truthy id) || JS.startsWith (URL.pathname url) "/ecfg_"
    then JS.or_null (JS.index (JS.split "/" (URL.pathname url)) 1)
    else id in
  (* if (!id || !token) return null; *)
  if negb (JS.truthy id) || negb (JS.truthy token) then None
  else
    (* url.search = ''; *)
    let url := URL.clear_search url in
    match id, token with
    | Some id, Some token =>
        Some {| type := external;
                baseUrl := URL.toString url;
                id := id;
                token := token;
                version := version |}
    | _, _ => None
    end.

(** [try { const url = new URL(connectionString); ... }
    catch { return null; }] *)
Definition parseExternalConnectionString (connectionString : string)
  : JS.completion (option Connection) :=
  JS.try_catch
    (url <- new_URL connectionString ;;
     JS.Normal (externalConnection url))
    (JS.Normal None).

(** [const connection = parseVercelConnectionString(connectionString);
    if (connection) return connection;
    return parseExternalConnectionString(connectionString);] *)
Definition parseConnectionString (connectionString : string)
  : JS.completion (option Connection) :=
  connection <- parseVercelConnectionString connectionString ;;
  match connection with
  | Some c => JS.Normal (Some c)
  | None => parseExternalConnectionString connectionString
  end.

End Parser.

(** ** A reference URL constructor

    [BasicURL.parse] follows the URL Standard on the connection strings
    of the shape [http(s)://host[:port]/path[?query][#fragment]] that are
    written with characters no parser state escapes, lowers or drops:
    lower-case host labels, unreserved characters in the path, and
    unreserved characters with [= & / : ?] in query and fragment.  Every
    other text is rejected, so a URL it does return is the URL the
    platform constructs.  It serves to run the parser on concrete
    connection strings; the general theorems do not depend on it. *)

Module BasicURL.

(** The text before the first [c], and the text after it if [c]
    occurs. *)
Fixpoint cut (c : ascii) (s : string) : string * option string :=
  match s with
  | EmptyString => ("", None)
  | String a s' =>
      if Ascii.eqb a c then ("", Some s')
      else let (l, r) := cut c s' in (String a l, r)
  end.

(** The text after the prefix [p], if the text starts with [p]. *)
Fixpoint strip_prefix (p s : string) : option string :=
  match p with
  | EmptyString => Some s
  | String b p' =>
      match s with
      | EmptyString => None
      | String a s' => if Ascii.eqb a b then strip_prefix p' s' else None
      end
  end.

Fixpoint all (p : ascii -> bool) (s : string) : bool :=
  match s with
  | EmptyString => true
  | String a s' => p a && all p s'
  end.

Definition between (lo hi c : ascii) : bool :=
  Ascii.leb lo c && Ascii.leb c hi.

Definition is_lower : ascii -> bool := between "a" "z".
Definition is_upper : ascii -> bool := between "A" "Z".
Definition is_digit : ascii -> bool := between "0" "9".

Definition one_of (s : string) (c : ascii) : bool :=
  negb (all (fun a => negb (Ascii.eqb a c)) s).

Definition unreserved (c : ascii) : bool :=
  is_lower c || is_upper c || is_digit c || one_of "-._~" c.

Definition path_char (c : ascii) : bool := unreserved c || one_of "/" c.

Definition query_char (c : ascii) : bool := unreserved c || one_of "=&/:?" c.

Definition label_char (c : ascii) : bool :=
  is_lower c || is_digit c || one_of "-" c.

Definition label_ok (l : string) : bool :=
  match l with
  | EmptyString => false
  | String a _ =>
      is_lower a && all label_char l && negb (String.prefix "xn--" l)
  end.

Definition host_ok (h : string) : bool := forallb label_ok (JS.split "." h).

Definition segment_ok (seg : string) : bool :=
  negb (seg =? ".") && negb (seg =? "..").

Definition path_ok (p : string) : bool :=
  all path_char p && forallb segment_ok (JS.split "/" p).

Definition text_ok (p : ascii -> bool) (s : option string) : bool :=
  match s with
  | None => true
  | Some s => all p s
  end.

Fixpoint digits_value (acc : N) (s : string) : option N :=
  match s with
  | EmptyString => Some acc
  | String a s' =>
      if is_digit a
      then digits_value (10 * acc + (N_of_ascii a - 48)) s'
      else None
  end.

Definition default_port (scheme : string) : N :=
  if scheme =? "https" then 443 else 80.

(** The port of the URL record: [Some None] for no port or the
    scheme's default port, [None] for a port that is not a number
    below 65536. *)
Definition parse_port (scheme : string) (text : option string)
  : option (option N) :=
  match text with
  | None | Some EmptyString => Some None
  | Some digits =>
      match digits_value 0 digits with
      | Some n =>
          if (n <=? 65535)%N
          then Some (if (n =? default_port scheme)%N then None else Some n)
          else None
      | None => None
      end
  end.

Definition name_value (sequence : string) : string * string :=
  let (name, value) := cut "=" sequence in
  (name, match value with Some v => v | None => "" end).

(** The [application/x-www-form-urlencoded] parser on a query without
    escapes. *)
Definition form_parse (q : string) : list (string * string) :=
  map name_value (filter (fun s => negb (s =? "")) (JS.split "&" q)).

(** The list of the [searchParams] object for a query. *)
Definition query_pairs (query : option string) : list (string * string) :=
  match query with
  | Some q => form_parse q
  | None => []
  end.

Definition TypeError : string := "TypeError: Invalid URL".

Definition parse (input : string) : JS.completion URL.t :=
  let (before_fragment, fragment) := cut "#" input in
  let (before_query, query) := cut "?" before_fragment in
  let (scheme, after_scheme) := cut ":" before_query in
  match after_scheme with
  | Some after_colon =>
      match strip_prefix "//" after_colon with
      | Some rest =>
          let (authority, p) := cut "/" rest in
          let path := String "/" (match p with Some p => p | None => "" end) in
          let (h, port_text) := cut ":" authority in
          match parse_port scheme port_text with
          | Some port =>
              if ((scheme =? "https") || (scheme =? "http"))
                 && host_ok h && path_ok path
                 && text_ok query_char query && text_ok query_char fragment
              then JS.Normal
                     (URL.mk scheme "" "" (Some h) port path query fragment
                        (query_pairs query))
              else JS.Throw TypeError
          | None => JS.Throw TypeError
          end
      | None => JS.Throw TypeError
      end
  | None => JS.Throw TypeError
  end.

(** The URL objects [parse] returns. *)
Definition canonical (u : URL.t) : Prop :=
  URL.username u = "" /\ URL.password u = ""
  /\ (URL.scheme u = "https" \/ URL.scheme u = "http")
  /\ (exists h, URL.hostname u = Some h /\ host_ok h = true)
  /\ match URL.port u with
     | None => True
     | Some n => (n <= 65535)%N /\ n <> default_port (URL.scheme u)
     end
  /\ (exists p, URL.path u = String "/" p)
  /\ path_ok (URL.path u) = true
  /\ text_ok query_char (URL.query u) = true
  /\ text_ok query_char (URL.fragment u) = true
  /\ URL.query_list u = query_pairs (URL.query u).

(** The authority of a canonical URL, without its two slashes. *)
Definition host_port (h : string) (port : option N) : string :=
  h ++ URL.marked ":" (option_map URL.serialize_port port).

(** A text that can be appended as a parameter value: made of query
    characters, without ampersand. *)
Definition query_value (v : string) : Prop :=
  all query_char v = true /\ JS.includes v "&" = false.

End BasicURL.

(** ** A reference URL constructor for opaque paths

    [RootlessURL.parse] follows the URL Standard on the texts of the
    shape [scheme:path[?query][#fragment]] whose scheme is made of
    lower-case letters and is not special, and whose path does not
    start with a slash: the path is then opaque and kept as it is
    written.  The path may hold unreserved characters, slashes and
    spaces; a text that ends with a space is rejected, like every
    other text. *)

Module RootlessURL.

Definition special_schemes : list string :=
  ["http"; "https"; "ws"; "wss"; "ftp"; "file"].

Definition scheme_ok (scheme : string) : bool :=
  negb (scheme =? "") && BasicURL.all BasicURL.is_lower scheme
  && negb (existsb (String.eqb scheme) special_schemes).

Definition opaque_char (c : ascii) : bool :=
  BasicURL.unreserved c || BasicURL.one_of "/ " c.

Fixpoint ends_with_space (s : string) : bool :=
  match s with
  | EmptyString => false
  | String a EmptyString => Ascii.eqb a " "
  | String _ s' => ends_with_space s'
  end.

Definition parse (input : string) : JS.completion URL.t :=
  if ends_with_space input then JS.Throw BasicURL.TypeError
  else
    let (before_fragment, fragment) := BasicURL.cut "#" input in
    let (before_query, query) := BasicURL.cut "?" before_fragment in
    let (scheme, after_scheme) := BasicURL.cut ":" before_query in
    match after_scheme with
    | Some path =>
        if scheme_ok scheme && negb (JS.startsWith path "/")
           && BasicURL.all opaque_char path
           && BasicURL.text_ok BasicURL.query_char query
           && BasicURL.text_ok BasicURL.query_char fragment
        then JS.Normal
               (URL.mk scheme "" "" None None path query fragment
                  (BasicURL.query_pairs query))
        else JS.Throw BasicURL.TypeError
    | None => JS.Throw BasicURL.TypeError
    end.

End RootlessURL.

(** ** What the specification says, in its own words *)

(** The vendor shape of §4.1: scheme [https], the vendor host, the
    reserved path prefix, a non-empty first path segment and a non-empty
    [token] parameter. *)
Definition vendor_shape (u : URL.t) (seg tok : string) : Prop :=
  URL.scheme u = "https"
  /\ URL.host u = "edge-config.vercel.com"
  /\ JS.startsWith (URL.pathname u) "/ecfg" = true
  /\ JS.index (JS.split "/" (URL.pathname u)) 1 = Some seg
  /\ seg <> ""
  /\ URL.searchParams_get u "token" = Some tok
  /\ tok <> "".

(** The connection the vendor recognizer is specified to construct. *)
Definition vendor_connection (seg tok : string) : Connection :=
  {| type := vercel;
     baseUrl := "https://edge-config.vercel.com" ++ "/" ++ seg;
     id := seg;
     version := "1";
     token := tok |}.

(** The first path segment as the recognizers read it:
    [url.pathname.split('/')[1]]. *)
Definition first_path_segment (u : URL.t) : option string :=
  JS.index (JS.split "/" (URL.pathname u)) 1.


(** The base URL as §4.1 (step 6) words it: scheme, host and path. *)
Definition scheme_host_path (u : URL.t) : string :=
  URL.scheme u ++ "://" ++ URL.host u ++ URL.pathname u.

(** The query of §8 (idempotence) that appends the fields of a
    connection again. *)
Definition appended_query (c : Connection) : string :=
  "id=" ++ id c ++ "&token=" ++ token c ++ "&version=" ++ version c.

Definition appended_list (c : Connection) : list (string * string) :=
  [("id", id c); ("token", token c); ("version", version c)].

(** The string of §8 (idempotence): the base URL of a connection
    followed by that query. *)
Definition reconstruct (c : Connection) : string :=
  baseUrl c ++ "?" ++ appended_query c.

(** The URL object the URL Standard prescribes for [reconstruct c] when
    [c] came from the URL object [u], the base URL carries no fragment
    and the three values need no escaping: the components of the base
    URL, with the appended query. *)
Definition reparsed (u : URL.t) (c : Connection) : URL.t :=
  match type c with
  | external =>
      URL.mk (URL.scheme u) (URL.username u) (URL.password u)
        (URL.hostname u) (URL.port u) (URL.path u)
        (Some (appended_query c)) None (appended_list c)
  | vercel =>
      URL.mk "https" "" "" (Some "edge-config.vercel.com") None
        (String "/" (id c))
        (Some (appended_query c)) None (appended_list c)
  end.

(** ** Connection strings used as examples *)

Module Sample.

(** A vendor string, with a version parameter the vendor recognizer
    ignores. *)
Definition vendor : string :=
  "https://edge-config.vercel.com/ecfg_abc?token=tkn123&version=2".

Definition vendor_url : URL.t :=
  URL.mk "https" "" "" (Some "edge-config.vercel.com") None "/ecfg_abc"
    (Some "token=tkn123&version=2") None
    [("token", "tkn123"); ("version", "2")].

(** The vendor string of §8 without its token. *)
Definition vendor_no_token : string :=
  "https://edge-config.vercel.com/ecfg_abc".

(** A vendor string whose path has a second segment. *)
Definition vendor_deep : string :=
  "https://edge-config.vercel.com/ecfg_abc/items?token=tkn123".

(** A vendor-host string whose first segment starts with [ecfg] but
    not with [ecfg_], and that carries an [id] parameter. *)
Definition vendor_loose : string :=
  "https://edge-config.vercel.com/ecfgtest?id=other&token=tkn123".

Definition vendor_loose_url : URL.t :=
  URL.mk "https" "" "" (Some "edge-config.vercel.com") None "/ecfgtest"
    (Some "id=other&token=tkn123") None
    [("id", "other"); ("token", "tkn123")].

(** The external string of §8 whose path overrides the [id]
    parameter. *)
Definition external_path : string :=
  "https://example.com/ecfg_xyz?id=ignored&token=tkn123".

Definition external_path_url : URL.t :=
  URL.mk "https" "" "" (Some "example.com") None "/ecfg_xyz"
    (Some "id=ignored&token=tkn123") None
    [("id", "ignored"); ("token", "tkn123")].

Definition external_path_connection : Connection :=
  {| type := external;
     baseUrl := "https://example.com/ecfg_xyz";
     id := "ecfg_xyz";
     version := "1";
     token := "tkn123" |}.

(** An external string with an explicit version. *)
Definition external_version : string :=
  "https://example.com/ecfg_xyz?token=tkn123&version=2".

Definition external_version_connection : Connection :=
  {| type := external;
     baseUrl := "https://example.com/ecfg_xyz";
     id := "ecfg_xyz";
     version := "2";
     token := "tkn123" |}.

(** An external string with an empty [id] parameter. *)
Definition external_empty_id : string :=
  "https://example.com/cfg?id=&token=tkn123".

Definition external_empty_id_url : URL.t :=
  URL.mk "https" "" "" (Some "example.com") None "/cfg"
    (Some "id=&token=tkn123") None
    [("id", ""); ("token", "tkn123")].

(** An external string with a fragment. *)
Definition external_fragment : string :=
  "https://example.com/cfg?id=a&token=t#frag".

Definition external_fragment_url : URL.t :=
  URL.mk "https" "" "" (Some "example.com") None "/cfg"
    (Some "id=a&token=t") (Some "frag")
    [("id", "a"); ("token", "t")].

Definition external_fragment_connection : Connection :=
  {| type := external;
     baseUrl := "https://example.com/cfg#frag";
     id := "a";
     version := "1";
     token := "t" |}.

End Sample.

(** ** The external recognizer, case by case *)

(** How [parseExternalConnectionString] settles the id [i]: the first
    path segment when the path starts with [/ecfg_]; else the [id]
    parameter when it is not empty; else the first path segment, which
    must not be empty. *)
Definition external_id_resolution (u : URL.t) (i : string) : Prop :=
  (JS.startsWith (URL.pathname u) "/ecfg_" = true
   /\ first_path_segment u = Some i)
  \/ (JS.startsWith (URL.pathname u) "/ecfg_" = false
      /\ URL.searchParams_get u "id" = Some i /\ i <> "")
  \/ (JS.startsWith (URL.pathname u) "/ecfg_" = false
      /\ JS.truthy (URL.searchParams_get u "id") = false
      /\ first_path_segment u = Some i /\ i <> "").

(** The connection the external recognizer returns for that id and the
    token [tok]. *)
Definition external_connection (u : URL.t) (i tok : string) : Connection :=
  {| type := external;
     baseUrl := URL.toString (URL.clear_search u);
     id := i;
     version := JS.or_default (URL.searchParams_get u "version") "1";
     token := tok |}.

Definition external_version_url : URL.t :=
  URL.mk "https" "" "" (Some "example.com") None "/ecfg_xyz"
    (Some "token=tkn123&version=2") None
    [("token", "tkn123"); ("version", "2")].

Definition rootless_space_connection : Connection :=
  {| type := external;
     baseUrl := "x:a";
     id := "a";
     version := "1";
     token := "t" |}.






Definition rootless_space : string := "x:a ?id=a&token=t".

(** A vendor-host string with an explicit port. *)
Definition vendor_with_port : string :=
  "https://edge-config.vercel.com:8443/ecfg_abc?token=tkn123".

Definition vendor_with_port_url : URL.t :=
  URL.mk "https" "" "" (Some "edge-config.vercel.com") (Some 8443%N)
    "/ecfg_abc" (Some "token=tkn123") None [("token", "tkn123")].

(** ** Values of type [unknown] and the objects behind them

    The other helpers of [utils/index.ts] take values of any type.  A
    value is a primitive or a reference to an object; what the helpers
    read of an object is given by the heap: whether it is an array and
    which elements it has, whether [Error.prototype] is on its
    prototype chain, its own properties, and what a property read or
    an assignment finds on its prototype chain.  The heap is fixed
    during a call (getters do not change what later reads return), the
    objects are not proxies, and method calls on arrays reach the
    built-in methods. *)

Inductive value : Type :=
| VUndefined
| VNull
| VBoolean (b : bool)
| VNumber (bits : N)
| VBigInt (z : Z)
| VString (s : string)
| VSymbol (sym : N)
| VObject (ref : N).

(** An own property: a data property with its value, or an accessor
    with the outcome of calling its getter. *)
Inductive property : Type :=
| Data (v : value)
| Accessor (get : JS.completion value).

(** What an assignment [o[key] = v] finds for [key] on a prototype
    chain: nothing, a writable data property, a property that cannot
    be assigned (a read-only data property, an accessor without
    setter), or the [__proto__] setter of [Object.prototype], the only
    setter the embedding has. *)
Inductive slot : Type := Absent | Writable | ReadOnly | ProtoSetter.

Module Heap.

Record t : Type := mk {
  (* typeof gives 'function' *)
  callable : N -> bool;
  (* Array.isArray, and the elements; [None] is a hole *)
  array_elements : N -> option (list (option value));
  (* Error.prototype is on the prototype chain *)
  error_instance : N -> bool;
  own_property : N -> string -> option property;
  (* a read of a property that is not an own property *)
  inherited : N -> string -> JS.completion value;
  (* a property read on a primitive other than undefined and null *)
  primitive_get : value -> string -> JS.completion value;
  (* the object Object.prototype *)
  Object_prototype : N;
  (* what an assignment finds on the chain that starts at an object *)
  chain_slot : N -> string -> slot
}.

End Heap.

(** The object [pick] builds: its prototype ([None] for [null]) and its
    own properties, all of them writable data properties. *)
Record fresh_object : Type := mkFresh {
  prototype : option N;
  own : list (string * value)
}.

Section Utils.

Variable h : Heap.t.

Definition TypeError : string := "TypeError".

(** [typeof v] *)
Definition typeof (v : value) : string :=
  match v with
  | VUndefined => "undefined"
  | VNull => "object"
  | VBoolean _ => "boolean"
  | VNumber _ => "number"
  | VBigInt _ => "bigint"
  | VString _ => "string"
  | VSymbol _ => "symbol"
  | VObject r => if Heap.callable h r then "function" else "object"
  end.

(** [Array.isArray(v)] *)
Definition Array_isArray (v : value) : bool :=
  match v with
  | VObject r =>
      match Heap.array_elements h r with
      | Some _ => true
      | None => false
      end
  | _ => false
  end.

(** The elements of an array. *)
Definition elements (v : value) : list (option value) :=
  match v with
  | VObject r =>
      match Heap.array_elements h r with
      | Some els => els
      | None => []
      end
  | _ => []
  end.

(** [Array.prototype.some]: the callback is not called for a hole. *)
Fixpoint Array_some (callback : value -> bool) (els : list (option value))
  : bool :=
  match els with
  | [] => false
  | None :: els' => Array_some callback els'
  | Some v :: els' => callback v || Array_some callback els'
  end.

(** [Array.prototype.forEach] with a callback that updates a state and
    may throw: the callback is not called for a hole. *)
Fixpoint Array_forEach {A S : Type}
  (callback : A -> S -> JS.completion S) (els : list (option A)) (st : S)
  : JS.completion S :=
  match els with
  | [] => JS.Normal st
  | None :: els' => Array_forEach callback els' st
  | Some a :: els' =>
      st' <- callback a st ;; Array_forEach callback els' st'
  end.

Definition assertIsKey (key : value) : JS.completion unit :=
  if negb (typeof key =? "string")
  then JS.Throw "@vercel/edge-config: Expected key to be a string"
  else JS.Normal tt.

Definition assertIsKeys (keys : value) : JS.completion unit :=
  if negb (Array_isArray keys)
     || Array_some (fun key => negb (typeof key =? "string")) (elements keys)
  then JS.Throw "@vercel/edge-config: Expected keys to be an array of string"
  else JS.Normal tt.

(** The key of the array index [i]. *)
Definition index_key (i : nat) : string :=
  NilEmpty.string_of_uint (Nat.to_uint i).

(** The UTF-16 code units that start at a byte of the UTF-8 encoding
    of a string: none at a continuation byte, two at the first byte of
    a sequence of four, one otherwise. *)
Definition code_units (byte : ascii) : nat :=
  let n := N_of_ascii byte in
  if (n <? 128)%N then 1
  else if (n <? 192)%N then 0
  else if (n <? 240)%N then 1
  else 2.

(** [s.length] for the string whose UTF-8 encoding is [s]. *)
Fixpoint utf16_length (s : string) : nat :=
  match s with
  | EmptyString => 0
  | String byte s' => code_units byte + utf16_length s'
  end.

(** The own properties of a string: its length and its indices. *)
Definition string_own (s prop : string) : bool :=
  (prop =? "length")
  || existsb (fun i => index_key i =? prop) (seq 0 (utf16_length s)).

(** [Object.prototype.hasOwnProperty.call(obj, prop)] for a string
    key. *)
Definition hasOwnProperty (obj : value) (prop : string)
  : JS.completion bool :=
  match obj with
  | VUndefined | VNull => JS.Throw TypeError
  | VString s => JS.Normal (string_own s prop)
  | VObject r =>
      JS.Normal match Heap.own_property h r prop with
                | Some _ => true
                | None => false
                end
  | _ => JS.Normal false
  end.

(** [v[key]] *)
Definition Get (v : value) (key : string) : JS.completion value :=
  match v with
  | VUndefined | VNull => JS.Throw TypeError
  | VObject r =>
      match Heap.own_property h r key with
      | Some (Data x) => JS.Normal x
      | Some (Accessor outcome) => outcome
      | None => Heap.inherited h r key
      end
  | _ => Heap.primitive_get h v key
  end.

(** [v instanceof Error] *)
Definition instanceof_Error (v : value) : bool :=
  match v with
  | VObject r => Heap.error_instance h r
  | _ => false
  end.

(** [v === s] for a string [s] *)
Definition strict_equals_string (v : value) (s : string) : bool :=
  match v with
  | VString s' => s' =? s
  | _ => false
  end.

Definition isDynamicServerError (error : value) : JS.completion bool :=
  if instanceof_Error error then
    owns <- hasOwnProperty error "digest" ;;
    if owns then
      digest <- Get error "digest" ;;
      JS.Normal (strict_equals_string digest "DYNAMIC_SERVER_USAGE")
    else JS.Normal false
  else JS.Normal false.

(** The own properties after [key] is given the value [v]: the value
    of an own property is replaced, a new property comes last. *)
Fixpoint set_own (key : string) (v : value) (props : list (string * value))
  : list (string * value) :=
  match props with
  | [] => [(key, v)]
  | (k, x) :: props' =>
      if k =? key then (k, v) :: props'
      else (k, x) :: set_own key v props'
  end.

Fixpoint get_own (key : string) (props : list (string * value))
  : option value :=
  match props with
  | [] => None
  | (k, x) :: props' => if k =? key then Some x else get_own key props'
  end.

(** [ret[key] = v] in strict code, for the object [pick] builds. *)
Definition assign (ret : fresh_object) (key : string) (v : value)
  : JS.completion fresh_object :=
  match get_own key (own ret) with
  | Some _ => JS.Normal (mkFresh (prototype ret) (set_own key v (own ret)))
  | None =>
      match match prototype ret with
            | Some p => Heap.chain_slot h p key
            | None => Absent
            end with
      | Absent | Writable =>
          JS.Normal (mkFresh (prototype ret) (set_own key v (own ret)))
      | ReadOnly => JS.Throw TypeError
      | ProtoSetter =>
          JS.Normal match v with
                    | VObject r => mkFresh (Some r) (own ret)
                    | VNull => mkFresh None (own ret)
                    | _ => ret
                    end
      end
  end.

(** [const ret = {}; keys.forEach((key) => { ret[key] = obj[key]; });
    return ret;] *)
Definition pick (obj : value) (keys : list (option string))
  : JS.completion fresh_object :=
  Array_forEach
    (fun key ret => v <- Get obj key ;; assign ret key v)
    keys
    (mkFresh (Some (Heap.Object_prototype h)) []).

End Utils.

(** A heap for examples: the array [['a', , 'b']] at 1, an error with
    the digest of Next.js at 2, the object [{ a: 'x' }] at 3, and
    [Object.prototype] at 10 with its method [toString] at 11. *)
Definition sample_heap : Heap.t :=
  Heap.mk
    (fun r => (r =? 11)%N)
    (fun r => if (r =? 1)%N
              then Some [Some (VString "a"); None; Some (VString "b")]
              else None)
    (fun r => (r =? 2)%N)
    (fun r key =>
       if (r =? 2)%N && (key =? "digest")
       then Some (Data (VString "DYNAMIC_SERVER_USAGE"))
       else if (r =? 3)%N && (key =? "a") then Some (Data (VString "x"))
       else None)
    (fun r key =>
       if key =? "toString" then JS.Normal (VObject 11)
       else JS.Normal VUndefined)
    (fun v key => JS.Normal VUndefined)
    10%N
    (fun r key =>
       if key =? "__proto__" then ProtoSetter
       else if key =? "toString" then Writable
       else Absent).

(** ** Strings *)

Lemma split_not_nil (sep : ascii) (s : string) : JS.split sep s <> [].
Proof.
  destruct s as [|a s]; simpl; [discriminate|].
  destruct (Ascii.eqb a sep); [discriminate|].
  destruct (JS.split sep s); discriminate.
Qed.

Lemma truthy_Some (v : option string) :
  JS.truthy v = true -> exists s, v = Some s /\ s <> "".
Proof.
  destruct v as [[|a s]|]; simpl; try discriminate.
  intros _. exists (String a s). split; [reflexivity|discriminate].
Qed.

Lemma truthy_nonempty (s : string) : s <> "" -> JS.truthy (Some s) = true.
Proof. destruct s; [congruence|reflexivity]. Qed.

Lemma or_default_nonempty (v : option string) (d : string) :
  d <> "" -> JS.or_default v d <> "".
Proof. destruct v as [[|a s]|]; simpl; auto; discriminate. Qed.

Lemma protocol_https (u : URL.t) :
  URL.protocol u = "https:" <-> URL.scheme u = "https".
Proof.
  unfold URL.protocol. split; intros H; [|now rewrite H].
  destruct (URL.scheme u) as [|a1 [|a2 [|a3 [|a4 [|a5 [|a6 r]]]]]];
    simpl in H; try discriminate; injection H; intros; subst; try reflexivity.
  destruct r; discriminate.
Qed.

Lemma split_sep (sep : ascii) (s : string) :
  JS.split sep (String sep s) = "" :: JS.split sep s.
Proof. simpl. now rewrite Ascii.eqb_refl. Qed.

(** No piece of a split contains the separator. *)
Lemma split_pieces_sep_free (sep : ascii) (s : string) :
  Forall (fun piece => JS.includes piece sep = false) (JS.split sep s).
Proof.
  induction s as [|a s IH]; simpl.
  - repeat constructor.
  - destruct (Ascii.eqb a sep) eqn:Ha.
    + constructor; [reflexivity|exact IH].
    + destruct (JS.split sep s) as [|piece pieces].
      * repeat constructor. simpl. now rewrite Ha.
      * inversion IH; subst. constructor; [|assumption].
        simpl. now rewrite Ha.
Qed.

(** A character missing from a string is missing from its pieces. *)
Lemma split_pieces_includes (c sep : ascii) (s : string) :
  JS.includes s c = false ->
  Forall (fun piece => JS.includes piece c = false) (JS.split sep s).
Proof.
  induction s as [|a s IH]; simpl; intros H.
  - repeat constructor.
  - apply orb_false_iff in H. destruct H as [Ha Hs]. specialize (IH Hs).
    destruct (Ascii.eqb a sep).
    + constructor; [reflexivity|exact IH].
    + destruct (JS.split sep s) as [|piece pieces].
      * repeat constructor. simpl. now rewrite Ha.
      * inversion IH; subst. constructor; [|assumption].
        simpl. now rewrite Ha.
Qed.

(** A string without the separator is its own single piece. *)
Lemma split_sep_free (sep : ascii) (s : string) :
  JS.includes s sep = false -> JS.split sep s = [s].
Proof.
  induction s as [|a s IH]; simpl; intros H; [reflexivity|].
  apply orb_false_iff in H. destruct H as [Ha Hs].
  now rewrite Ha, (IH Hs).
Qed.

Lemma startsWith_cons (a b : ascii) (s p : string) :
  JS.startsWith (String a s) (String b p) = Ascii.eqb a b && JS.startsWith s p.
Proof. reflexivity. Qed.

Lemma startsWith_empty (s : string) : JS.startsWith s "" = true.
Proof. now destruct s. Qed.

(** A prefix without the separator is a prefix of the string exactly
    when it is a prefix of the first piece. *)
Lemma prefix_first_piece
  (sep : ascii) (q s piece : string) (pieces : list string) :
  JS.includes q sep = false ->
  JS.split sep s = piece :: pieces ->
  JS.startsWith piece q = JS.startsWith s q.
Proof.
  revert q piece pieces.
  induction s as [|b s IH]; simpl; intros q piece pieces Hq Hs.
  - injection Hs as <- <-. reflexivity.
  - destruct (Ascii.eqb b sep) eqn:Hb.
    + injection Hs as <- <-. apply Ascii.eqb_eq in Hb. subst b.
      destruct q as [|a q]; [reflexivity|]. simpl in Hq.
      apply orb_false_iff in Hq. destruct Hq as [Ha _].
      rewrite startsWith_cons, Ascii.eqb_sym, Ha. reflexivity.
    + destruct (JS.split sep s) as [|piece' pieces'] eqn:Hs';
        [now destruct (split_not_nil sep s)|].
      injection Hs as <- <-.
      destruct q as [|a q]; [reflexivity|]. simpl in Hq.
      apply orb_false_iff in Hq. destruct Hq as [_ Hq].
      rewrite !startsWith_cons. f_equal.
      now apply (IH q piece' pieces').
Qed.

Lemma includes_app (a b : string) (c : ascii) :
  JS.includes (a ++ b) c = JS.includes a c || JS.includes b c.
Proof.
  induction a as [|x a IH]; simpl; [reflexivity|].
  now rewrite IH, orb_assoc.
Qed.

(** The first path segment of a path that starts with a slash, and how
    a prefix of the path shows in it. *)
Lemma first_segment_of_rooted_path (u : URL.t) :
  JS.startsWith (URL.pathname u) "/" = true ->
  exists seg,
    first_path_segment u = Some seg
    /\ JS.includes seg "/" = false
    /\ forall q, JS.includes q "/" = false ->
                 JS.startsWith (URL.pathname u) (String "/" q)
                 = JS.startsWith seg q.
Proof.
  unfold first_path_segment, URL.pathname.
  destruct (URL.path u) as [|a p]; [discriminate|].
  rewrite startsWith_cons, startsWith_empty, andb_true_r.
  intros Ha. apply Ascii.eqb_eq in Ha. subst a.
  rewrite split_sep.
  destruct (JS.split "/" p) as [|seg pieces] eqn:Hp;
    [now destruct (split_not_nil "/" p)|].
  exists seg. split; [reflexivity|]. split.
  - pose proof (split_pieces_sep_free "/" p) as H. rewrite Hp in H.
    now inversion H.
  - intros q Hq. rewrite startsWith_cons. simpl.
    symmetry. now apply (prefix_first_piece "/" q p seg pieces).
Qed.

Lemma startsWith_shorter (s p q : string) :
  JS.startsWith s p = true -> JS.startsWith p q = true ->
  JS.startsWith s q = true.
Proof.
  revert p q.
  induction s as [|a s IH]; intros [|b p] [|c q];
    try (intros; apply startsWith_empty); try (intros; discriminate).
  rewrite !startsWith_cons.
  intros H1 H2. apply andb_true_iff in H1, H2.
  destruct H1 as [H1 H1'], H2 as [H2 H2'].
  apply Ascii.eqb_eq in H1, H2. subst. rewrite Ascii.eqb_refl.
  now apply (IH p q).
Qed.

(** ** Totality: the three functions never throw *)

Section Totality.

Variable new_URL : string -> JS.completion URL.t.

Lemma parseVercel_cases (s : string) :
  (exists u, new_URL s = JS.Normal u
             /\ parseVercelConnectionString new_URL s
                = JS.Normal (vercelConnection u))
  \/ (exists e, new_URL s = JS.Throw e
                /\ parseVercelConnectionString new_URL s = JS.Normal None).
Proof.
  unfold parseVercelConnectionString.
  destruct (new_URL s) as [u|e]; simpl; eauto.
Qed.

Lemma parseExternal_cases (s : string) :
  (exists u, new_URL s = JS.Normal u
             /\ parseExternalConnectionString new_URL s
                = JS.Normal (externalConnection u))
  \/ (exists e, new_URL s = JS.Throw e
                /\ parseExternalConnectionString new_URL s = JS.Normal None).
Proof.
  unfold parseExternalConnectionString.
  destruct (new_URL s) as [u|e]; simpl; eauto.
Qed.

(** The result of [parseConnectionString] in terms of the URL object. *)
Lemma parseConnectionString_Normal (s : string) (u : URL.t) :
  new_URL s = JS.Normal u ->
  parseConnectionString new_URL s
  = JS.Normal match vercelConnection u with
              | Some c => Some c
              | None => externalConnection u
              end.
Proof.
  intros Hu. unfold parseConnectionString, parseVercelConnectionString,
    parseExternalConnectionString.
  rewrite Hu; simpl. destruct (vercelConnection u); reflexivity.
Qed.

Lemma parseConnectionString_Throw (s e : string) :
  new_URL s = JS.Throw e ->
  parseConnectionString new_URL s = JS.Normal None.
Proof.
  intros Hu. unfold parseConnectionString, parseVercelConnectionString,
    parseExternalConnectionString.
  rewrite Hu; reflexivity.
Qed.

(** A returned connection comes from a URL object. *)
Lemma parseConnectionString_Some (s : string) (c : Connection) :
  parseConnectionString new_URL s = JS.Normal (Some c) ->
  exists u, new_URL s = JS.Normal u
            /\ (vercelConnection u = Some c
                \/ (vercelConnection u = None
                    /\ externalConnection u = Some c)).
Proof.
  destruct (new_URL s) as [u|e] eqn:Hu.
  - rewrite (parseConnectionString_Normal s u Hu). intros H.
    exists u. split; [reflexivity|].
    destruct (vercelConnection u); [left|right; split]; congruence.
  - rewrite (parseConnectionString_Throw s e Hu). discriminate.
Qed.

End Totality.

(** ** The two recognizers on a URL object *)

Lemma vercelConnection_Some (u : URL.t) (c : Connection) :
  vercelConnection u = Some c <->
  exists seg tok, vendor_shape u seg tok /\ c = vendor_connection seg tok.
Proof.
  unfold vercelConnection, vendor_shape, first_path_segment. split.
  - destruct (String.eqb_spec (URL.host u) "edge-config.vercel.com")
      as [Hh|]; simpl; [|discriminate].
    destruct (String.eqb_spec (URL.protocol u) "https:") as [Hp|]; simpl;
      [|discriminate].
    destruct (JS.startsWith (URL.pathname u) "/ecfg") eqn:Hpre; simpl;
      [|discriminate].
    destruct (JS.index (JS.split "/" (URL.pathname u)) 1) as [[|a seg]|];
      simpl; try discriminate.
    destruct (URL.searchParams_get u "token") as [[|b tok]|]; simpl;
      try discriminate.
    intros H. injection H as <-.
    exists (String a seg), (String b tok).
    repeat split; try discriminate; auto. now apply protocol_https.
  - intros (seg & tok & (Hs & Hh & Hpre & Hseg & Hne & Htok & Hte) & ->).
    apply protocol_https in Hs. rewrite Hh, Hs, Hpre, Hseg, Htok. simpl.
    destruct seg as [|a seg]; [congruence|]. simpl.
    destruct tok as [|b tok]; [congruence|]. reflexivity.
Qed.

Lemma externalConnection_Some (u : URL.t) (c : Connection) :
  externalConnection u = Some c ->
  let pathId := JS.or_null (first_path_segment u) in
  let resolved :=
    if negb (JS.truthy (URL.searchParams_get u "id"))
       || JS.startsWith (URL.pathname u) "/ecfg_"
    then pathId else URL.searchParams_get u "id" in
  resolved = Some (id c) /\ id c <> ""
  /\ URL.searchParams_get u "token" = Some (token c) /\ token c <> ""
  /\ version c = JS.or_default (URL.searchParams_get u "version") "1"
  /\ baseUrl c = URL.toString (URL.clear_search u)
  /\ type c = external.
Proof.
  unfold externalConnection, first_path_segment. cbv zeta.
  match goal with
  | |- context [negb (JS.truthy ?r)] =>
      match r with
      | (if _ then _ else _) => destruct r as [[|a i]|]
      end
  end; simpl; try discriminate.
  destruct (URL.searchParams_get u "token") as [[|b t]|]; simpl;
    try discriminate.
  intros H. injection H as <-. simpl.
  repeat split; try discriminate; reflexivity.
Qed.


Lemma or_null_truthy (v : option string) (s : string) :
  v = Some s -> s <> "" -> JS.or_null v = Some s.
Proof. intros -> H. destruct s; [congruence|reflexivity]. Qed.

Lemma or_null_Some (v : option string) (s : string) :
  JS.or_null v = Some s -> v = Some s.
Proof. destruct v as [[|a r]|]; cbv; intros H; congruence. Qed.

(** ** The serializer *)

Lemma serialize_port_digits (p : N) (c : ascii) :
  BasicURL.is_digit c = false -> JS.includes (URL.serialize_port p) c = false.
Proof.
  intros Hc. unfold URL.serialize_port.
  induction (N.to_uint p)
    as [|d IH|d IH|d IH|d IH|d IH|d IH|d IH|d IH|d IH|d IH];
    cbn [NilEmpty.string_of_uint JS.includes]; [reflexivity|..];
    rewrite IH, orb_false_r; apply Ascii.eqb_neq; intros <-;
    vm_compute in Hc; discriminate.
Qed.

Lemma cleared_path_rooted (u : URL.t) :
  JS.startsWith (URL.path u) "/" = true -> URL.cleared_path u = URL.path u.
Proof.
  intros H. unfold URL.cleared_path, URL.has_opaque_path. now rewrite H.
Qed.

Lemma strip_trailing_spaces_head (s : string) (a : ascii) :
  JS.startsWith (URL.strip_trailing_spaces s) (String a "") = true ->
  JS.startsWith s (String a "") = true.
Proof.
  destruct s as [|b s]; [discriminate|]. cbn [URL.strip_trailing_spaces].
  destruct (Ascii.eqb b " " && (URL.strip_trailing_spaces s =? ""));
    [discriminate|].
  rewrite !startsWith_cons, !startsWith_empty. exact (fun H => H).
Qed.

Lemma strip_trailing_spaces_includes (s : string) (c : ascii) :
  JS.includes s c = false ->
  JS.includes (URL.strip_trailing_spaces s) c = false.
Proof.
  induction s as [|a s IH]; [reflexivity|].
  cbn [JS.includes URL.strip_trailing_spaces]. intros H.
  apply orb_false_iff in H. destruct H as [Ha Hs].
  destruct (Ascii.eqb a " " && (URL.strip_trailing_spaces s =? ""));
    [reflexivity|].
  cbn [JS.includes]. now rewrite Ha, (IH Hs).
Qed.

(** Clearing the query leaves the authority as it is. *)
Lemma authority_clear_search (u : URL.t) :
  URL.authority (URL.clear_search u) = URL.authority u.
Proof.
  unfold URL.authority, URL.clear_search, URL.port_suffix, URL.credentials,
    URL.includes_credentials.
  cbn [URL.hostname URL.port URL.path URL.username URL.password].
  destruct (URL.hostname u); [reflexivity|].
  unfold URL.cleared_path, URL.has_opaque_path.
  destruct (JS.startsWith (URL.path u) "/") eqn:Hroot; [reflexivity|].
  assert (Hno : JS.startsWith (URL.path u) "//" = false).
  { destruct (URL.path u) as [|a p]; [reflexivity|].
    rewrite startsWith_cons in *.
    rewrite startsWith_empty, andb_true_r in Hroot.
    now rewrite Hroot. }
  rewrite Hno. cbn [negb andb].
  destruct (URL.fragment u); [now rewrite Hno|].
  destruct (JS.startsWith (URL.strip_trailing_spaces (URL.path u)) "//")
    eqn:Hs; [|reflexivity].
  assert (Hh : JS.startsWith (URL.strip_trailing_spaces (URL.path u)) "/"
               = true)
    by (apply (startsWith_shorter _ _ _ Hs); reflexivity).
  apply strip_trailing_spaces_head in Hh. congruence.
Qed.

Lemma toString_clear_search (u : URL.t) :
  URL.toString (URL.clear_search u)
  = URL.scheme u ++ ":" ++ URL.authority u ++ URL.cleared_path u
    ++ URL.fragment_suffix u.
Proof.
  unfold URL.toString. rewrite authority_clear_search. reflexivity.
Qed.

Lemma fragment_suffix_no_question_mark (u : URL.t) :
  URL.question_mark_free u ->
  JS.includes (URL.fragment_suffix u) "?" = false.
Proof.
  intros (_ & _ & _ & _ & _ & Hf). unfold URL.fragment_suffix.
  destruct (URL.fragment u) as [f|]; [|reflexivity].
  cbn [URL.marked JS.includes]. now rewrite (Hf f eq_refl).
Qed.

Lemma credentials_no_question_mark (u : URL.t) :
  URL.question_mark_free u ->
  JS.includes (URL.credentials u) "?" = false.
Proof.
  intros (_ & Hn & Hp & _). unfold URL.credentials.
  destruct (URL.includes_credentials u); [|reflexivity].
  rewrite !includes_app, Hn.
  destruct (URL.password u =? ""); [reflexivity|].
  rewrite includes_app, Hp. reflexivity.
Qed.

Lemma authority_no_question_mark (u : URL.t) :
  URL.question_mark_free u ->
  JS.includes (URL.authority u) "?" = false.
Proof.
  intros Hfree. pose proof (credentials_no_question_mark u Hfree) as Hc.
  destruct Hfree as (_ & _ & _ & Hh & _). unfold URL.authority.
  destruct (URL.hostname u) as [h|].
  - rewrite !includes_app, Hc, (Hh h eq_refl). unfold URL.port_suffix.
    destruct (URL.port u) as [p|]; [|reflexivity].
    cbn [option_map URL.marked JS.includes].
    now rewrite (serialize_port_digits p "?" eq_refl).
  - now destruct (JS.startsWith (URL.path u) "//").
Qed.

Lemma toString_clear_search_no_question_mark (u : URL.t) :
  URL.question_mark_free u ->
  JS.includes (URL.toString (URL.clear_search u)) "?" = false.
Proof.
  intros Hfree. rewrite toString_clear_search, !includes_app.
  rewrite (authority_no_question_mark u Hfree).
  rewrite (fragment_suffix_no_question_mark u Hfree).
  destruct Hfree as (Hs & _ & _ & _ & Hpath & _).
  assert (Hcleared : JS.includes (URL.cleared_path u) "?" = false).
  { unfold URL.cleared_path.
    destruct (_ && _); [|exact Hpath].
    now apply strip_trailing_spaces_includes. }
  rewrite Hs, Hcleared. reflexivity.
Qed.

Lemma first_path_segment_includes (u : URL.t) (seg : string) (c : ascii) :
  first_path_segment u = Some seg ->
  JS.includes (URL.path u) c = false -> JS.includes seg c = false.
Proof.
  unfold first_path_segment, JS.index, URL.pathname. intros Hseg Hc.
  apply nth_error_In in Hseg.
  pose proof (split_pieces_includes c "/" (URL.path u) Hc) as Hall.
  rewrite Forall_forall in Hall. now apply Hall.
Qed.

(** ** The round trip on URL objects *)

(** When the reconstructed string is read as [reparsed u c], the two
    recognizers, tried in order, return the connection [c] again. *)
Lemma round_trip_on_urls (u : URL.t) (c : Connection) :
  vercelConnection u = Some c
  \/ (vercelConnection u = None /\ externalConnection u = Some c) ->
  (type c = external -> URL.fragment u = None) ->
  match vercelConnection (reparsed u c) with
  | Some c' => Some c'
  | None => externalConnection (reparsed u c)
  end = Some c.
Proof.
  intros H Hfrag.
  destruct H as [Hv|[Hv He]].
  - (* a vendor connection is recognized as the same vendor connection *)
    apply vercelConnection_Some in Hv.
    destruct Hv as (seg & tok & (_ & _ & Hpre & Hseg & Hne & _ & Hte) & ->).
    assert (Hroot : JS.startsWith (URL.pathname u) "/" = true)
      by (apply (startsWith_shorter _ _ _ Hpre); reflexivity).
    destruct (first_segment_of_rooted_path u Hroot)
      as (seg' & Hseg' & Hfree & Hq).
    assert (seg' = seg) as -> by (unfold first_path_segment in *; congruence).
    assert (Hv : vercelConnection
                   (reparsed u (vendor_connection seg tok))
                 = Some (vendor_connection seg tok)).
    { apply vercelConnection_Some. exists seg, tok.
      split; [|reflexivity]. unfold vendor_shape. simpl.
      repeat split; try assumption.
      - unfold URL.pathname. simpl. rewrite startsWith_cons. simpl.
        rewrite <- (Hq "ecfg" eq_refl). exact Hpre.
      - unfold URL.pathname. simpl.
        rewrite ?split_sep, (split_sep_free "/" seg Hfree). reflexivity. }
    now rewrite Hv.
  - (* an external connection stays external, with the same fields *)
    pose proof (externalConnection_Some u c He) as Hc. cbv zeta in Hc.
    destruct Hc as (Hid & Hine & Htok & Htne & Hver & Hbase & Htype).
    specialize (Hfrag Htype).
    assert (Hu2 : reparsed u c
                  = URL.mk (URL.scheme u) (URL.username u) (URL.password u)
                      (URL.hostname u) (URL.port u) (URL.path u)
                      (Some (appended_query c)) None (appended_list c))
      by (unfold reparsed; now rewrite Htype).
    rewrite Hu2. clear Hu2.
    set (u2 := URL.mk _ _ _ _ _ _ _ _ _).
    assert (Hv2 : vercelConnection u2 = None).
    { destruct (vercelConnection u2) as [c2|] eqn:Hc2; [|reflexivity].
      apply vercelConnection_Some in Hc2.
      destruct Hc2 as (seg & tok2 & (Hs & Hh & Hp & Hseg & Hne & _) & _).
      assert (Hsome : vercelConnection u
                      = Some (vendor_connection seg (token c))).
      { apply vercelConnection_Some. exists seg, (token c).
        split; [|reflexivity]. now repeat split. }
      congruence. }
    rewrite Hv2.
    assert (Hver' : JS.or_default (Some (version c)) "1" = version c).
    { destruct (version c) as [|a v] eqn:E; [|reflexivity].
      symmetry in Hver. now apply or_default_nonempty in Hver. }
    assert (Hbase' : URL.toString (URL.clear_search u2) = baseUrl c).
    { rewrite Hbase, !toString_clear_search.
      unfold URL.fragment_suffix, URL.cleared_path, URL.has_opaque_path.
      subst u2. cbn [URL.scheme URL.path URL.fragment].
      rewrite Hfrag.
      unfold URL.authority, URL.credentials, URL.includes_credentials,
        URL.port_suffix.
      reflexivity. }
    unfold externalConnection.
    change (URL.searchParams_get u2 "id") with (Some (id c)).
    change (URL.searchParams_get u2 "token") with (Some (token c)).
    change (URL.searchParams_get u2 "version") with (Some (version c)).
    change (URL.pathname u2) with (URL.pathname u).
    rewrite Hver', Hbase', (truthy_nonempty _ Hine), (truthy_nonempty _ Htne).
    simpl.
    destruct (JS.startsWith (URL.pathname u) "/ecfg_").
    + rewrite orb_true_r in Hid. unfold first_path_segment in Hid.
      rewrite Hid, (truthy_nonempty _ Hine). simpl.
      destruct c; simpl in *; now subst.
    + rewrite (truthy_nonempty _ Hine). simpl.
      destruct c; simpl in *; now subst.
Qed.


(** A path prefix [/q] shows at the start of the first path segment. *)
Lemma prefix_in_first_segment (u : URL.t) (q i : string) :
  JS.includes q "/" = false ->
  JS.startsWith (URL.pathname u) (String "/" q) = true ->
  first_path_segment u = Some i ->
  JS.startsWith i q = true /\ JS.includes i "/" = false.
Proof.
  intros Hq Hpre Hseg.
  assert (Hroot : JS.startsWith (URL.pathname u) "/" = true)
    by (apply (startsWith_shorter _ _ _ Hpre); rewrite startsWith_cons;
        now rewrite Ascii.eqb_refl, startsWith_empty).
  destruct (first_segment_of_rooted_path u Hroot) as (i' & Hi' & Hfree & H).
  assert (i' = i) as -> by congruence.
  split; [|exact Hfree]. now rewrite <- (H q Hq).
Qed.

Lemma startsWith_nonempty (s q : string) :
  JS.startsWith s q = true -> q <> "" -> s <> "".
Proof. intros H Hq ->. destruct q; [congruence|discriminate]. Qed.

Lemma truthy_false (v : option string) :
  JS.truthy v = false -> v = None \/ v = Some "".
Proof. destruct v as [[|a s]|]; simpl; auto; discriminate. Qed.

Lemma externalConnection_spec (u : URL.t) (c : Connection) :
  externalConnection u = Some c <->
  exists i tok,
    external_id_resolution u i
    /\ URL.searchParams_get u "token" = Some tok /\ tok <> ""
    /\ c = external_connection u i tok.
Proof.
  split.
  - intros H. apply externalConnection_Some in H. cbv zeta in H.
    destruct H as (Hid & Hine & Htok & Htne & Hver & Hbase & Htype).
    exists (id c), (token c). repeat split; try assumption.
    + unfold external_id_resolution.
      destruct (JS.startsWith (URL.pathname u) "/ecfg_") eqn:Hpre.
      * left. rewrite orb_true_r in Hid. apply or_null_Some in Hid. now split.
      * right. rewrite orb_false_r in Hid.
        destruct (JS.truthy (URL.searchParams_get u "id")) eqn:Ht;
          simpl in Hid.
        -- left. now repeat split.
        -- right. apply or_null_Some in Hid. now repeat split.
    + unfold external_connection. destruct c; simpl in *. now subst.
  - intros (i & tok & Hres & Htok & Htne & ->).
    assert (Hi : i <> "" /\
                 (if negb (JS.truthy (URL.searchParams_get u "id"))
                     || JS.startsWith (URL.pathname u) "/ecfg_"
                  then JS.or_null (first_path_segment u)
                  else URL.searchParams_get u "id") = Some i).
    { destruct Hres
        as [[Hpre Hseg]|[(Hpre & Hid & Hne)|(Hpre & Hid & Hseg & Hne)]].
      - assert (Hne : i <> "").
        { destruct (prefix_in_first_segment u "ecfg_" i eq_refl Hpre Hseg)
            as [Hstart _].
          apply (startsWith_nonempty _ _ Hstart). discriminate. }
        split; [exact Hne|]. rewrite Hpre, orb_true_r.
        now apply or_null_truthy.
      - split; [exact Hne|].
        now rewrite Hpre, Hid, (truthy_nonempty i Hne).
      - split; [exact Hne|]. rewrite Hid. simpl. now apply or_null_truthy. }
    destruct Hi as [Hne Hi]. unfold externalConnection, external_connection.
    unfold first_path_segment in Hi. rewrite Hi, Htok.
    now rewrite (truthy_nonempty i Hne), (truthy_nonempty tok Htne).
Qed.

(** The host getter of a URL with a port holds a colon. *)
Lemma host_with_port (u : URL.t) (p : N) :
  URL.port u = Some p -> URL.host u <> "edge-config.vercel.com".
Proof.
  unfold URL.host. intros ->. destruct (URL.hostname u) as [h|];
    [|discriminate].
  intros H.
  assert (Hc : JS.includes (h ++ ":" ++ URL.serialize_port p) ":" = true).
  { rewrite includes_app. cbn [JS.includes append].
    rewrite Ascii.eqb_refl. apply orb_true_r. }
  rewrite H in Hc. discriminate Hc.
Qed.


(** An id parameter or a segment [pathname.split('/')[1]] that is not
    empty settles the id of the external recognizer. *)
Lemma external_id_resolution_exists (u : URL.t) :
  JS.truthy (URL.searchParams_get u "id") = true
  \/ JS.truthy (first_path_segment u) = true ->
  exists i, external_id_resolution u i.
Proof.
  intros Hid. unfold external_id_resolution.
  destruct (JS.startsWith (URL.pathname u) "/ecfg_") eqn:Hpre.
  - assert (Hroot : JS.startsWith (URL.pathname u) "/" = true)
      by now apply (startsWith_shorter _ _ _ Hpre).
    destruct (first_segment_of_rooted_path u Hroot) as (i & Hi & _).
    exists i. now left.
  - destruct (JS.truthy (URL.searchParams_get u "id")) eqn:Ht.
    + apply truthy_Some in Ht. destruct Ht as (i & Hi & Hne).
      exists i. right. left. now repeat split.
    + destruct Hid as [Hid|Hid]; [discriminate|].
      apply truthy_Some in Hid. destruct Hid as (i & Hi & Hne).
      exists i. right. right. now repeat split.
Qed.

(** ** Properties of the recognizers, for every URL constructor *)

Section Properties.

Variable new_URL : string -> JS.completion URL.t.

(** C1 : [parseConnectionString] applies the vendor recognizer first:
    either that recognizer returns a connection, and this very
    connection, of type [vercel], is the result; or it returns [null]
    and the result is the result of the external recognizer.  In
    particular a string that both recognizers accept yields the
    vendor connection, never the external one. *)
Theorem parseConnectionString_vendor_first (s : string) :
  ((exists c, parseVercelConnectionString new_URL s = JS.Normal (Some c)
              /\ parseConnectionString new_URL s = JS.Normal (Some c)
              /\ type c = vercel)
   \/ (parseVercelConnectionString new_URL s = JS.Normal None
       /\ parseConnectionString new_URL s
          = parseExternalConnectionString new_URL s))
  /\ (forall cv ce,
         parseVercelConnectionString new_URL s = JS.Normal (Some cv) ->
         parseExternalConnectionString new_URL s = JS.Normal (Some ce) ->
         parseConnectionString new_URL s = JS.Normal (Some cv)
         /\ type cv = vercel /\ type ce = external).
Proof.
  split.
  - destruct (parseVercel_cases new_URL s) as [(u & Hu & Hv)|(e & He & Hv)].
    + destruct (vercelConnection u) as [c|] eqn:Hc.
      * left. exists c. split; [exact Hv|]. split.
        -- unfold parseConnectionString. now rewrite Hv.
        -- apply vercelConnection_Some in Hc.
           destruct Hc as (seg & tok & _ & ->). reflexivity.
      * right. split; [exact Hv|].
        unfold parseConnectionString. now rewrite Hv.
    + right. split; [exact Hv|].
      unfold parseConnectionString. now rewrite Hv.
  - intros cv ce Hv He. split; [|split].
    + unfold parseConnectionString. now rewrite Hv.
    + destruct (parseVercel_cases new_URL s)
        as [(u & _ & Hv')|(e & _ & Hv')]; rewrite Hv' in Hv; [|discriminate].
      injection Hv as Hv. apply vercelConnection_Some in Hv.
      destruct Hv as (seg & tok & _ & ->). reflexivity.
    + destruct (parseExternal_cases new_URL s)
        as [(u & _ & He')|(e & _ & He')]; rewrite He' in He; [|discriminate].
      injection He as He. now apply externalConnection_Some in He.
Qed.

(** C2 : the vendor recognizer returns a connection exactly for the
    strings that parse as a URL of the vendor shape (scheme [https],
    host [edge-config.vercel.com], path starting with [/ecfg], first
    path segment and first [token] parameter non-empty); the
    connection then has type [vercel], the base URL
    [https://edge-config.vercel.com/<id>], that id and token, and
    version ["1"] whatever the query says; for every other string the
    result is [null]. *)
Theorem parseVercelConnectionString_spec (s : string) :
  (forall c,
      parseVercelConnectionString new_URL s = JS.Normal (Some c) <->
      exists u seg tok,
        new_URL s = JS.Normal u /\ vendor_shape u seg tok
        /\ c = vendor_connection seg tok)
  /\ ((forall u seg tok, new_URL s = JS.Normal u -> ~ vendor_shape u seg tok) ->
      parseVercelConnectionString new_URL s = JS.Normal None).
Proof.
  assert (Hiff : forall c,
             parseVercelConnectionString new_URL s = JS.Normal (Some c) <->
             exists u seg tok,
               new_URL s = JS.Normal u /\ vendor_shape u seg tok
               /\ c = vendor_connection seg tok).
  { intros c.
    destruct (parseVercel_cases new_URL s) as [(u & Hu & Hv)|(e & He & Hv)];
      rewrite Hv; split.
    - intros H. injection H as H. apply vercelConnection_Some in H.
      destruct H as (seg & tok & Hshape & ->). now exists u, seg, tok.
    - intros (u' & seg & tok & Hu' & Hshape & ->).
      assert (u' = u) as -> by congruence. f_equal.
      apply vercelConnection_Some. now exists seg, tok.
    - discriminate.
    - intros (u' & _ & _ & Hu' & _). congruence. }
  split; [exact Hiff|].
  intros Hno.
  destruct (parseVercel_cases new_URL s) as [(u & Hu & Hv)|(e & He & Hv)];
    [|exact Hv].
  rewrite Hv. destruct (vercelConnection u) as [c|] eqn:Hc; [|reflexivity].
  apply vercelConnection_Some in Hc. destruct Hc as (seg & tok & Hshape & _).
  now destruct (Hno u seg tok Hu).
Qed.

(** C4 : [parseConnectionString] never throws: it completes normally
    on every string, with a connection or [null], and with [null]
    whenever the URL constructor rejects the string. *)
Theorem parseConnectionString_never_throws (s : string) :
  (exists r, parseConnectionString new_URL s = JS.Normal r)
  /\ (forall e,
         new_URL s = JS.Throw e ->
         parseConnectionString new_URL s = JS.Normal None).
Proof.
  split.
  - destruct (new_URL s) as [u|e] eqn:Hu.
    + eexists. apply (parseConnectionString_Normal new_URL s u Hu).
    + exists None. apply (parseConnectionString_Throw new_URL s e Hu).
  - intros e. apply parseConnectionString_Throw.
Qed.

(** C5 : a returned connection has a non-empty id and a non-empty
    token. *)
Theorem parseConnectionString_id_token_nonempty
  (s : string) (c : Connection) :
  parseConnectionString new_URL s = JS.Normal (Some c) ->
  id c <> "" /\ token c <> "".
Proof.
  intros H. apply parseConnectionString_Some in H.
  destruct H as (u & _ & [Hv|[_ He]]).
  - apply vercelConnection_Some in Hv.
    destruct Hv as (seg & tok & (_ & _ & _ & _ & Hseg & _ & Htok) & ->).
    now split.
  - apply externalConnection_Some in He. cbv zeta in He. tauto.
Qed.

(** C7 : the external recognizer reads the version from the first
    [version] parameter and defaults it to ["1"].  Whenever it has a
    token and an id to return (a non-empty first [token] parameter,
    and a non-empty [id] parameter or segment [pathname.split('/')[1]]),
    it returns a connection whose version is the value of the
    parameter when that is not empty, and ["1"] when the parameter is
    absent or empty; and every connection it returns has such a
    version, never an empty one. *)
Theorem parseExternalConnectionString_version (s : string) :
  (forall u tok,
      new_URL s = JS.Normal u ->
      URL.searchParams_get u "token" = Some tok -> tok <> "" ->
      JS.truthy (URL.searchParams_get u "id") = true
      \/ JS.truthy (first_path_segment u) = true ->
      exists c,
        parseExternalConnectionString new_URL s = JS.Normal (Some c)
        /\ type c = external /\ token c = tok
        /\ (forall v, URL.searchParams_get u "version" = Some v ->
                      v <> "" -> version c = v)
        /\ (URL.searchParams_get u "version" = None
            \/ URL.searchParams_get u "version" = Some "" ->
            version c = "1"))
  /\ (forall c,
         parseExternalConnectionString new_URL s = JS.Normal (Some c) ->
         exists u,
           new_URL s = JS.Normal u
           /\ (forall v, URL.searchParams_get u "version" = Some v ->
                         v <> "" -> version c = v)
           /\ (URL.searchParams_get u "version" = None
               \/ URL.searchParams_get u "version" = Some "" ->
               version c = "1")
           /\ version c <> "").
Proof.
  assert (Hversion : forall u,
             (forall v, URL.searchParams_get u "version" = Some v ->
                        v <> "" ->
                        JS.or_default (URL.searchParams_get u "version") "1"
                        = v)
             /\ (URL.searchParams_get u "version" = None
                 \/ URL.searchParams_get u "version" = Some "" ->
                 JS.or_default (URL.searchParams_get u "version") "1"
                 = "1")).
  { intros u. split.
    - intros v -> Hv. destruct v; [congruence|reflexivity].
    - intros [->| ->]; reflexivity. }
  split.
  - intros u tok Hu Htok Hte Hid.
    destruct (external_id_resolution_exists u Hid) as [i Hres].
    exists (external_connection u i tok). split.
    + unfold parseExternalConnectionString. rewrite Hu. simpl. f_equal.
      apply externalConnection_spec. now exists i, tok.
    + split; [reflexivity|]. split; [reflexivity|]. apply Hversion.
  - intros c H.
    destruct (parseExternal_cases new_URL s) as [(u & Hu & He)|(e & _ & He)];
      rewrite He in H; [|discriminate].
    injection H as H. apply externalConnection_Some in H. cbv zeta in H.
    destruct H as (_ & _ & _ & _ & Hver & _).
    exists u. split; [exact Hu|]. rewrite Hver.
    split; [apply Hversion|]. split; [apply Hversion|].
    apply or_default_nonempty. discriminate.
Qed.



(** C10: the vendor recognizer asks for the path prefix [/ecfg], the
    override of the external recognizer for [/ecfg_].  On an [https]
    URL of the vendor host whose first path segment starts with [ecfg]
    but not with [ecfg_], and with a non-empty token, the result is
    the vendor connection with that segment as id; the path does not
    start with [/ecfg_], and the external recognizer, on the same
    string, returns a non-empty [id] parameter rather than the
    segment. *)
Theorem parseConnectionString_vendor_prefix
  (s : string) (u : URL.t) (seg tok : string) :
  new_URL s = JS.Normal u ->
  URL.scheme u = "https" ->
  URL.host u = "edge-config.vercel.com" ->
  JS.startsWith (URL.pathname u) "/" = true ->
  first_path_segment u = Some seg ->
  JS.startsWith seg "ecfg" = true ->
  JS.startsWith seg "ecfg_" = false ->
  URL.searchParams_get u "token" = Some tok -> tok <> "" ->
  parseConnectionString new_URL s
  = JS.Normal (Some (vendor_connection seg tok))
  /\ JS.startsWith (URL.pathname u) "/ecfg_" = false
  /\ (forall q,
         URL.searchParams_get u "id" = Some q -> q <> "" ->
         exists ce,
           parseExternalConnectionString new_URL s = JS.Normal (Some ce)
           /\ id ce = q).
Proof.
  intros Hu Hs Hh Hroot Hseg Hpre Hnot Htok Hte.
  destruct (first_segment_of_rooted_path u Hroot) as (seg' & Hseg' & _ & Hq).
  assert (seg' = seg) as -> by congruence.
  assert (Hvendor : JS.startsWith (URL.pathname u) "/ecfg" = true)
    by now rewrite (Hq "ecfg" eq_refl).
  assert (Hover : JS.startsWith (URL.pathname u) "/ecfg_" = false)
    by now rewrite (Hq "ecfg_" eq_refl).
  assert (Hne : seg <> "") by (intros ->; discriminate).
  split; [|split; [exact Hover|]].
  - rewrite (parseConnectionString_Normal new_URL s u Hu).
    assert (Hv : vercelConnection u = Some (vendor_connection seg tok)).
    { apply vercelConnection_Some. exists seg, tok.
      split; [|reflexivity]. now repeat split. }
    now rewrite Hv.
  - intros q Hid Hqne. unfold parseExternalConnectionString. rewrite Hu.
    destruct q as [|a q]; [congruence|].
    destruct tok as [|b tok]; [congruence|].
    simpl. unfold externalConnection. rewrite Hid, Htok, Hover. simpl.
    eexists. split; reflexivity.
Qed.

(** C6, as the code has it: the base URL of a returned connection
    carries no query.  For an external connection it is the
    serialization of the URL once [url.search = ''] has removed its
    query: scheme, credentials, host, port, path and fragment, without
    a question mark for the query; the path is that of the input when
    it starts with a slash or when there is a fragment, and an opaque
    path without fragment comes without the spaces at its end.  For a
    vendor connection it is [https://edge-config.vercel.com/] followed
    by the id, the first path segment, alone.  Unless a component other
    than the query holds a question mark, the base URL holds none. *)
Theorem parseConnectionString_baseUrl_no_query (s : string) (c : Connection) :
  parseConnectionString new_URL s = JS.Normal (Some c) ->
  exists u,
    new_URL s = JS.Normal u
    /\ match type c with
       | external =>
           baseUrl c = URL.toString (URL.clear_search u)
           /\ baseUrl c = URL.scheme u ++ ":" ++ URL.authority u
                          ++ URL.cleared_path u ++ URL.fragment_suffix u
           /\ (JS.startsWith (URL.path u) "/" = true
               \/ URL.fragment u <> None ->
               URL.cleared_path u = URL.path u)
           /\ (JS.startsWith (URL.path u) "/" = false ->
               URL.fragment u = None ->
               URL.cleared_path u = URL.strip_trailing_spaces (URL.path u))
       | vercel =>
           baseUrl c = "https://edge-config.vercel.com/" ++ id c
           /\ first_path_segment u = Some (id c)
       end
    /\ (URL.question_mark_free u -> JS.includes (baseUrl c) "?" = false).
Proof.
  intros H. apply parseConnectionString_Some in H.
  destruct H as (u & Hu & [Hv|[_ He]]); exists u; (split; [exact Hu|]).
  - apply vercelConnection_Some in Hv.
    destruct Hv as (seg & tok & (_ & _ & _ & Hseg & _) & ->). simpl.
    split; [now split|].
    intros (_ & _ & _ & _ & Hpath & _).
    now apply (first_path_segment_includes u seg "?").
  - apply externalConnection_Some in He. cbv zeta in He.
    destruct He as (_ & _ & _ & _ & _ & Hbase & Htype).
    rewrite Htype, Hbase. split.
    + split; [reflexivity|]. split; [apply toString_clear_search|].
      unfold URL.cleared_path, URL.has_opaque_path. split.
      * intros [-> |Hf]; [reflexivity|].
        destruct (URL.fragment u); [|congruence].
        now rewrite andb_false_r.
      * now intros -> ->.
    + apply toString_clear_search_no_question_mark.
Qed.


End Properties.

(** ** The reference constructor reads back what it returns *)

Lemma append_assoc (a b c : string) : (a ++ b) ++ c = a ++ (b ++ c).
Proof. induction a as [|x a IH]; simpl; [reflexivity|now rewrite IH]. Qed.

Lemma append_nil_r (a : string) : a ++ "" = a.
Proof. induction a as [|x a IH]; simpl; [reflexivity|now rewrite IH]. Qed.

(** [cut] *)
Lemma cut_suffix (c : ascii) (a : string) (o : option string) :
  JS.includes a c = false ->
  BasicURL.cut c (a ++ URL.marked c o) = (a, o).
Proof.
  induction a as [|x a IH]; simpl; intros H.
  - destruct o as [b|]; simpl; [now rewrite Ascii.eqb_refl|reflexivity].
  - apply orb_false_iff in H. destruct H as [Hx Ha].
    now rewrite Hx, (IH Ha).
Qed.

Lemma cut_at (c : ascii) (a b : string) :
  JS.includes a c = false ->
  BasicURL.cut c (a ++ String c b) = (a, Some b).
Proof. apply (cut_suffix c a (Some b)). Qed.

Lemma cut_parts (c : ascii) (s a : string) (o : option string) :
  BasicURL.cut c s = (a, o) ->
  JS.includes a c = false /\ s = a ++ URL.marked c o.
Proof.
  revert a o. induction s as [|x s IH]; simpl; intros a o H.
  - injection H as <- <-. now split.
  - destruct (Ascii.eqb x c) eqn:Hx.
    + injection H as <- <-. apply Ascii.eqb_eq in Hx. subst. now split.
    + destruct (BasicURL.cut c s) as [l r]. injection H as <- <-.
      destruct (IH l r eq_refl) as [Hl Hs]. simpl. rewrite Hx, Hl.
      split; [reflexivity|now rewrite Hs at 1].
Qed.

(** [all] *)
Lemma all_app (p : ascii -> bool) (a b : string) :
  BasicURL.all p (a ++ b) = BasicURL.all p a && BasicURL.all p b.
Proof.
  induction a as [|x a IH]; simpl; [reflexivity|].
  now rewrite IH, andb_assoc.
Qed.

Lemma all_includes (p : ascii -> bool) (s : string) (c : ascii) :
  BasicURL.all p s = true -> p c = false -> JS.includes s c = false.
Proof.
  intros Hs Hc. induction s as [|x s IH]; simpl in *; [reflexivity|].
  apply andb_true_iff in Hs. destruct Hs as [Hx Hs].
  rewrite (IH Hs), orb_false_r. apply Ascii.eqb_neq. intros ->. congruence.
Qed.

Lemma all_impl (p q : ascii -> bool) (s : string) :
  (forall c, p c = true -> q c = true) ->
  BasicURL.all p s = true -> BasicURL.all q s = true.
Proof.
  intros Hpq. induction s as [|x s IH]; simpl; [reflexivity|].
  intros H. apply andb_true_iff in H. destruct H as [Hx Hs].
  now rewrite (Hpq x Hx), (IH Hs).
Qed.

Lemma all_pieces (p : ascii -> bool) (sep : ascii) (s : string) :
  BasicURL.all p s = true ->
  Forall (fun piece => BasicURL.all p piece = true) (JS.split sep s).
Proof.
  induction s as [|x s IH]; simpl; intros H.
  - repeat constructor.
  - apply andb_true_iff in H. destruct H as [Hx Hs]. specialize (IH Hs).
    destruct (Ascii.eqb x sep).
    + constructor; [reflexivity|exact IH].
    + destruct (JS.split sep s) as [|piece pieces].
      * repeat constructor. simpl. now rewrite Hx.
      * inversion IH; subst. constructor; [|assumption].
        simpl. now rewrite Hx.
Qed.

(** A string whose pieces satisfy [p] is made of the separator and of
    characters that satisfy [p]. *)
Lemma pieces_all (p : ascii -> bool) (sep : ascii) (s : string) :
  forallb (BasicURL.all p) (JS.split sep s) = true ->
  BasicURL.all (fun c => p c || Ascii.eqb c sep) s = true.
Proof.
  induction s as [|x s IH]; simpl; [reflexivity|].
  destruct (Ascii.eqb x sep) eqn:Hx; simpl.
  - intros H. rewrite orb_true_r. now apply IH.
  - destruct (JS.split sep s) as [|piece pieces] eqn:Hs;
      [now destruct (split_not_nil sep s)|].
    simpl. intros H. apply andb_true_iff in H. destruct H as [H Hrest].
    apply andb_true_iff in H. destruct H as [Hpx Hpiece].
    rewrite Hpx. simpl. apply IH. simpl. now rewrite Hpiece.
Qed.

Lemma split_app_sep (sep : ascii) (a b : string) :
  JS.includes a sep = false ->
  JS.split sep (a ++ String sep b) = a :: JS.split sep b.
Proof.
  induction a as [|x a IH]; simpl; intros H.
  - now rewrite Ascii.eqb_refl.
  - apply orb_false_iff in H. destruct H as [Hx Ha].
    now rewrite Hx, (IH Ha).
Qed.

(** Decimal ports *)
Lemma digits_value_acc (d : Decimal.uint) (p : positive) :
  BasicURL.digits_value (N.pos p) (NilEmpty.string_of_uint d)
  = Some (N.pos (Pos.of_uint_acc d p)).
Proof.
  revert p.
  induction d as [|d IH|d IH|d IH|d IH|d IH|d IH|d IH|d IH|d IH|d IH];
    intros p; [reflexivity|..];
    cbn [NilEmpty.string_of_uint BasicURL.digits_value Pos.of_uint_acc];
    match goal with
    | |- context [BasicURL.is_digit ?c] =>
        change (BasicURL.is_digit c) with true; cbv iota
    end;
    rewrite <- IH; f_equal; vm_compute N_of_ascii; lia.
Qed.

Lemma digits_value_of_uint (d : Decimal.uint) :
  BasicURL.digits_value 0 (NilEmpty.string_of_uint d) = Some (N.of_uint d).
Proof.
  unfold N.of_uint.
  induction d as [|d IH|d IH|d IH|d IH|d IH|d IH|d IH|d IH|d IH|d IH];
    [reflexivity|..];
    cbn [NilEmpty.string_of_uint BasicURL.digits_value Pos.of_uint];
    match goal with
    | |- context [BasicURL.is_digit ?c] =>
        change (BasicURL.is_digit c) with true; cbv iota
    end;
    [exact IH|..];
    match goal with
    | |- BasicURL.digits_value ?a _ = Some (N.pos (Pos.of_uint_acc _ ?k)) =>
        change a with (N.pos k); apply digits_value_acc
    end.
Qed.

Lemma digits_value_serialize_port (n : N) :
  BasicURL.digits_value 0 (URL.serialize_port n) = Some n.
Proof.
  unfold URL.serialize_port.
  now rewrite digits_value_of_uint, DecimalN.Unsigned.of_to.
Qed.

Lemma serialize_port_not_empty (n : N) : URL.serialize_port n <> "".
Proof.
  unfold URL.serialize_port. destruct n as [|p]; [discriminate|].
  simpl. pose proof (DecimalPos.Unsigned.to_uint_nonnil p) as H.
  destruct (Pos.to_uint p); [congruence|..]; discriminate.
Qed.

Lemma strip_prefix_Some (p s r : string) :
  BasicURL.strip_prefix p s = Some r -> s = p ++ r.
Proof.
  revert s. induction p as [|b p IH]; simpl; intros s H.
  - congruence.
  - destruct s as [|a s]; [discriminate|].
    destruct (Ascii.eqb_spec a b) as [->|]; [|discriminate].
    now rewrite (IH s H).
Qed.

Lemma strip_prefix_app (p s : string) :
  BasicURL.strip_prefix p (p ++ s) = Some s.
Proof.
  induction p as [|b p IH]; simpl; [reflexivity|].
  now rewrite Ascii.eqb_refl.
Qed.

Lemma parse_port_Some
  (scheme : string) (text : option string) (port : option N) :
  BasicURL.parse_port scheme text = Some port ->
  match port with
  | None => True
  | Some n => (n <= 65535)%N /\ n <> BasicURL.default_port scheme
  end.
Proof.
  unfold BasicURL.parse_port.
  destruct text as [[|a t]|]; try (intros H; injection H as <-; exact I).
  destruct (BasicURL.digits_value 0 (String a t)) as [n|]; [|discriminate].
  destruct (N.leb_spec n 65535) as [Hle|]; [|discriminate].
  destruct (N.eqb_spec n (BasicURL.default_port scheme)) as [|Hne];
    intros H; injection H as <-; [exact I|now split].
Qed.

Lemma parse_port_serialize (scheme : string) (port : option N) :
  match port with
  | None => True
  | Some n => (n <= 65535)%N /\ n <> BasicURL.default_port scheme
  end ->
  BasicURL.parse_port scheme (option_map URL.serialize_port port) = Some port.
Proof.
  destruct port as [n|]; simpl; [|reflexivity]. intros [Hle Hne].
  unfold BasicURL.parse_port.
  destruct (URL.serialize_port n) as [|a t] eqn:E;
    [now destruct (serialize_port_not_empty n)|].
  rewrite <- E, digits_value_serialize_port.
  apply N.leb_le in Hle. apply N.eqb_neq in Hne. now rewrite Hle, Hne.
Qed.

(** Every URL object the reference constructor returns is canonical. *)
Lemma parse_canonical (s : string) (u : URL.t) :
  BasicURL.parse s = JS.Normal u -> BasicURL.canonical u.
Proof.
  unfold BasicURL.parse.
  destruct (BasicURL.cut "#" s) as [before_fragment fragment].
  destruct (BasicURL.cut "?" before_fragment) as [before_query query].
  destruct (BasicURL.cut ":" before_query) as [scheme [after_colon|]];
    [|discriminate].
  destruct (BasicURL.strip_prefix "//" after_colon) as [rest|]; [|discriminate].
  destruct (BasicURL.cut "/" rest) as [authority p].
  destruct (BasicURL.cut ":" authority) as [h port_text].
  destruct (BasicURL.parse_port scheme port_text) as [port|] eqn:Hport;
    [|discriminate].
  match goal with |- (if ?b then _ else _) = _ -> _ => destruct b eqn:Hok end;
    [|discriminate].
  intros H. injection H as <-.
  repeat (apply andb_true_iff in Hok; destruct Hok as [Hok ?]).
  unfold BasicURL.canonical. simpl.
  repeat split; try assumption.
  - apply orb_true_iff in Hok.
    destruct Hok as [Hs|Hs]; apply String.eqb_eq in Hs; auto.
  - now exists h.
  - now apply (parse_port_Some scheme port_text).
  - eexists. reflexivity.
Qed.

Lemma host_ok_includes (h : string) (c : ascii) :
  BasicURL.host_ok h = true ->
  BasicURL.label_char c = false -> Ascii.eqb c "." = false ->
  JS.includes h c = false.
Proof.
  intros Hok Hc Hdot.
  apply (all_includes (fun c => BasicURL.label_char c || Ascii.eqb c "."));
    [|now rewrite Hc, Hdot].
  apply (pieces_all BasicURL.label_char ".").
  unfold BasicURL.host_ok in Hok. rewrite forallb_forall in *.
  intros l Hl. specialize (Hok l Hl). unfold BasicURL.label_ok in Hok.
  destruct l as [|a l]; [discriminate|].
  apply andb_true_iff in Hok. destruct Hok as [Hok _].
  apply andb_true_iff in Hok. now destruct Hok as [_ Hok].
Qed.

Lemma suffix_includes (o : option string) (c a : ascii) :
  Ascii.eqb a c = false ->
  (forall b, o = Some b -> JS.includes b c = false) ->
  JS.includes (URL.marked a o) c = false.
Proof.
  intros Ha Hb. destruct o as [b|]; [|reflexivity].
  cbn [URL.marked JS.includes]. now rewrite Ha, (Hb b eq_refl).
Qed.

Lemma text_ok_Some (p : ascii -> bool) (o : option string) (c : ascii) :
  BasicURL.text_ok p o = true -> p c = false ->
  forall b, o = Some b -> JS.includes b c = false.
Proof. intros Ho Hc b ->. now apply (all_includes p). Qed.

Lemma host_port_includes (h : string) (port : option N) (c : ascii) :
  BasicURL.host_ok h = true ->
  BasicURL.label_char c = false -> Ascii.eqb c "." = false ->
  BasicURL.is_digit c = false -> Ascii.eqb ":" c = false ->
  JS.includes (BasicURL.host_port h port) c = false.
Proof.
  intros Hok Hc Hdot Hdigit Hcolon. unfold BasicURL.host_port.
  rewrite includes_app, (host_ok_includes h c Hok Hc Hdot).
  apply suffix_includes; [exact Hcolon|].
  destruct port as [n|]; [|discriminate]. intros b Hb. injection Hb as <-.
  now apply serialize_port_digits.
Qed.

Lemma toString_canonical
  (scheme h p : string) (port : option N) (query fragment : option string)
  (pairs : list (string * string)) :
  URL.toString
    (URL.mk scheme "" "" (Some h) port (String "/" p) query fragment pairs)
  = ((scheme ++ String ":" ("//" ++ BasicURL.host_port h port ++ String "/" p))
       ++ URL.marked "?" query) ++ URL.marked "#" fragment.
Proof.
  unfold URL.toString, URL.authority, URL.credentials, URL.includes_credentials,
    URL.query_suffix, URL.fragment_suffix, URL.port_suffix, BasicURL.host_port,
    URL.marked.
  cbn [URL.scheme URL.username URL.password URL.hostname URL.port URL.path
       URL.query URL.fragment String.eqb negb orb].
  destruct port as [n|], query as [q|], fragment as [f|];
    cbn [option_map append];
    repeat first [rewrite append_assoc | rewrite append_nil_r
                 | progress cbn [append]];
    reflexivity.
Qed.

(** The reference constructor reads back the serialization of every
    canonical URL object. *)
Lemma parse_toString (u : URL.t) :
  BasicURL.canonical u -> BasicURL.parse (URL.toString u) = JS.Normal u.
Proof.
  intros (Hn & Hp & Hs & (h & Hh & Hhok) & Hport & (p & Hpath) & Hpok
          & Hq & Hf & Hl).
  destruct u as [scheme username password hostname port path query fragment
                   pairs].
  cbn [URL.scheme URL.username URL.password URL.hostname URL.port URL.path
       URL.query URL.fragment URL.query_list] in *.
  subst username password hostname path pairs.
  rewrite toString_canonical.
  assert (Hscheme : forall c, BasicURL.is_lower c = false ->
                              JS.includes scheme c = false).
  { intros c Hc. apply (all_includes BasicURL.is_lower); [|exact Hc].
    now destruct Hs as [-> | ->]. }
  assert (Hpath : forall c, BasicURL.path_char c = false ->
                            JS.includes (String "/" p) c = false).
  { intros c Hc. apply (all_includes BasicURL.path_char); [|exact Hc].
    unfold BasicURL.path_ok in Hpok. apply andb_true_iff in Hpok. tauto. }
  set (authority := BasicURL.host_port h port).
  assert (Hbase : forall c,
             BasicURL.unreserved c = false -> BasicURL.one_of ":/" c = false ->
             JS.includes
               (scheme ++ String ":" ("//" ++ authority ++ String "/" p)) c
             = false).
  { intros c Hc Hsep.
    assert (Hcolon : Ascii.eqb ":" c = false).
    { apply Ascii.eqb_neq. intros <-. discriminate. }
    assert (Hslash : Ascii.eqb "/" c = false).
    { apply Ascii.eqb_neq. intros <-. discriminate. }
    assert (Hpc : BasicURL.path_char c = false).
    { unfold BasicURL.path_char, BasicURL.one_of. cbn [BasicURL.all].
      now rewrite Hc, Hslash. }
    unfold BasicURL.unreserved in Hc.
    repeat (apply orb_false_iff in Hc; destruct Hc as [Hc ?]).
    assert (Hdash : Ascii.eqb "-" c = false).
    { apply Ascii.eqb_neq. intros <-. discriminate. }
    assert (Hdot : Ascii.eqb c "." = false).
    { apply Ascii.eqb_neq. intros ->. discriminate. }
    rewrite includes_app. cbn [JS.includes append].
    rewrite includes_app, (Hscheme c Hc), Hcolon, Hslash, (Hpath c Hpc).
    unfold authority. rewrite host_port_includes; auto.
    unfold BasicURL.label_char, BasicURL.one_of. cbn [BasicURL.all].
    now rewrite Hc, H0, Hdash. }
  unfold BasicURL.parse.
  rewrite cut_suffix.
  2:{ rewrite includes_app, Hbase by reflexivity.
      apply suffix_includes; [reflexivity|].
      now apply (text_ok_Some BasicURL.query_char). }
  rewrite cut_suffix by (now apply Hbase).
  rewrite (cut_at ":" scheme) by (now apply Hscheme).
  rewrite strip_prefix_app.
  rewrite (cut_at "/" authority p).
  2:{ unfold authority. now apply host_port_includes. }
  unfold authority, BasicURL.host_port. rewrite cut_suffix.
  2:{ now apply host_ok_includes. }
  rewrite (parse_port_serialize scheme port Hport).
  rewrite Hhok, Hpok, Hq, Hf.
  assert (Hsch : (scheme =? "https") || (scheme =? "http") = true)
    by now destruct Hs as [-> | ->].
  rewrite Hsch. reflexivity.
Qed.

(** ** Query parameters of the reference constructor *)

Lemma first_value_In (name : string) (l : list (string * string)) (v : string) :
  URL.first_value name l = Some v -> In (name, v) l.
Proof.
  induction l as [|[n w] l IH]; simpl; [discriminate|].
  destruct (String.eqb_spec n name) as [->|].
  - intros H. injection H as ->. now left.
  - intros H. right. now apply IH.
Qed.

(** A value read from a query is a part of the query between two
    ampersands. *)
Lemma form_parse_value (p : ascii -> bool) (q n v : string) :
  In (n, v) (BasicURL.form_parse q) ->
  BasicURL.all p q = true ->
  BasicURL.all p v = true /\ JS.includes v "&" = false.
Proof.
  unfold BasicURL.form_parse. intros Hin Hq.
  apply in_map_iff in Hin. destruct Hin as (piece & Hnv & Hin).
  apply filter_In in Hin. destruct Hin as [Hin _].
  pose proof (all_pieces p "&" q Hq) as Hall.
  pose proof (split_pieces_sep_free "&" q) as Hfree.
  rewrite Forall_forall in Hall, Hfree.
  specialize (Hall piece Hin). specialize (Hfree piece Hin). simpl in Hfree.
  unfold BasicURL.name_value in Hnv.
  destruct (BasicURL.cut "=" piece) as [name value] eqn:Hcut.
  injection Hnv as -> <-.
  destruct (cut_parts "=" piece n value Hcut) as [_ ->].
  destruct value as [w|]; [|now split].
  cbn [URL.marked] in *.
  rewrite all_app in Hall. rewrite includes_app in Hfree.
  apply andb_true_iff in Hall. apply orb_false_iff in Hfree.
  cbn [BasicURL.all JS.includes] in *.
  destruct Hall as [_ Hall], Hfree as [_ Hfree].
  apply andb_true_iff in Hall. apply orb_false_iff in Hfree. tauto.
Qed.

(** The appended query is read back as its three parameters. *)
Lemma form_parse_appended (i t v : string) :
  JS.includes i "&" = false -> JS.includes t "&" = false ->
  JS.includes v "&" = false ->
  BasicURL.form_parse ("id=" ++ i ++ "&token=" ++ t ++ "&version=" ++ v)
  = [("id", i); ("token", t); ("version", v)].
Proof.
  intros Hi Ht Hv. unfold BasicURL.form_parse.
  change ("id=" ++ i ++ "&token=" ++ t ++ "&version=" ++ v)
    with ("id=" ++ (i ++ String "&" ("token=" ++ (t ++ String "&"
                                                    ("version=" ++ v))))).
  rewrite <- (append_assoc "id=" i), split_app_sep
    by (now rewrite includes_app, Hi).
  rewrite <- (append_assoc "token=" t), split_app_sep
    by (now rewrite includes_app, Ht).
  rewrite split_sep_free by (now rewrite includes_app, Hv).
  assert (Hname : forall name value,
             JS.includes name "=" = false ->
             BasicURL.name_value (name ++ String "=" value) = (name, value)).
  { intros name value Hn. unfold BasicURL.name_value.
    now rewrite (cut_at "=" name value Hn). }
  cbn [filter].
  change (negb ("id=" ++ i =? "")) with true.
  change (negb ("token=" ++ t =? "")) with true.
  change (negb ("version=" ++ v =? "")) with true.
  cbv iota. cbn [map].
  change ("id=" ++ i) with ("id" ++ String "=" i).
  change ("token=" ++ t) with ("token" ++ String "=" t).
  change ("version=" ++ v) with ("version" ++ String "=" v).
  now rewrite (Hname "id" i), (Hname "token" t), (Hname "version" v).
Qed.

Lemma searchParams_get_value (u : URL.t) (name v : string) :
  BasicURL.canonical u ->
  URL.searchParams_get u name = Some v -> BasicURL.query_value v.
Proof.
  intros (_ & _ & _ & _ & _ & _ & _ & Hq & _ & Hl).
  unfold URL.searchParams_get. rewrite Hl.
  destruct (URL.query u) as [q|]; [|discriminate]. simpl in *.
  intros H. apply first_value_In in H.
  now apply (form_parse_value BasicURL.query_char q name v).
Qed.

Lemma path_char_query_char (c : ascii) :
  BasicURL.path_char c = true -> BasicURL.query_char c = true.
Proof.
  unfold BasicURL.path_char, BasicURL.query_char.
  destruct (BasicURL.unreserved c); [reflexivity|]. simpl.
  unfold BasicURL.one_of. cbn [BasicURL.all].
  destruct (Ascii.eqb_spec "/" c) as [<-|]; [reflexivity|discriminate].
Qed.

Lemma first_path_segment_value (u : URL.t) (seg : string) :
  BasicURL.canonical u ->
  first_path_segment u = Some seg ->
  BasicURL.all BasicURL.path_char seg = true
  /\ BasicURL.segment_ok seg = true /\ BasicURL.query_value seg
  /\ JS.includes seg "/" = false.
Proof.
  intros (_ & _ & _ & _ & _ & _ & Hpok & _) Hseg.
  unfold first_path_segment, JS.index, URL.pathname in Hseg.
  apply nth_error_In in Hseg.
  pose proof (split_pieces_sep_free "/" (URL.path u)) as Hfree.
  rewrite Forall_forall in Hfree. specialize (Hfree seg Hseg).
  unfold BasicURL.path_ok in Hpok. apply andb_true_iff in Hpok.
  destruct Hpok as [Hchars Hsegs].
  pose proof (all_pieces _ "/" _ Hchars) as Hall.
  rewrite Forall_forall in Hall. rewrite forallb_forall in Hsegs.
  specialize (Hall seg Hseg). specialize (Hsegs seg Hseg). simpl in Hall.
  repeat split; try assumption.
  - apply (all_impl BasicURL.path_char); [|exact Hall].
    apply path_char_query_char.
  - now apply (all_includes BasicURL.path_char).
Qed.

Lemma connection_values (u : URL.t) (c : Connection) :
  BasicURL.canonical u ->
  vercelConnection u = Some c \/ externalConnection u = Some c ->
  BasicURL.query_value (id c)
  /\ BasicURL.query_value (token c)
  /\ BasicURL.query_value (version c).
Proof.
  intros Hu [Hv|He].
  - apply vercelConnection_Some in Hv.
    destruct Hv as (seg & tok & (_ & _ & _ & Hseg & _ & Htok & _) & ->).
    cbn [id token version vendor_connection].
    split; [|split].
    + now apply (first_path_segment_value u seg Hu).
    + now apply (searchParams_get_value u "token").
    + now split.
  - apply externalConnection_Some in He. cbv zeta in He.
    destruct He as (Hid & _ & Htok & _ & Hver & _).
    split; [|split].
    + destruct (negb (JS.truthy (URL.searchParams_get u "id"))
                || JS.startsWith (URL.pathname u) "/ecfg_").
      * apply or_null_Some in Hid.
        now apply (first_path_segment_value u (id c) Hu).
      * now apply (searchParams_get_value u "id").
    + now apply (searchParams_get_value u "token").
    + rewrite Hver.
      destruct (URL.searchParams_get u "version") as [[|a v]|] eqn:Hget;
        cbn [JS.or_default]; try (now split).
      now apply (searchParams_get_value u "version").
Qed.

Lemma query_value_appended (c : Connection) :
  BasicURL.query_value (id c) ->
  BasicURL.query_value (token c) ->
  BasicURL.query_value (version c) ->
  BasicURL.all BasicURL.query_char (appended_query c) = true
  /\ BasicURL.form_parse (appended_query c) = appended_list c.
Proof.
  intros [Hi Hi'] [Ht Ht'] [Hv Hv']. unfold appended_query, appended_list.
  split; [|now apply form_parse_appended].
  now rewrite !all_app, Hi, Ht, Hv.
Qed.

(** The URL object expected for the reconstructed string is
    canonical. *)
Lemma reparsed_canonical (u : URL.t) (c : Connection) :
  BasicURL.canonical u ->
  vercelConnection u = Some c \/ externalConnection u = Some c ->
  BasicURL.canonical (reparsed u c).
Proof.
  intros Hu Hc.
  destruct (connection_values u c Hu Hc) as (Hi & Ht & Hv).
  destruct (query_value_appended c Hi Ht Hv) as [Hchars Hpairs].
  unfold reparsed. destruct Hc as [Hc|Hc].
  - apply vercelConnection_Some in Hc.
    destruct Hc as (seg & tok & (_ & _ & _ & Hseg & _) & ->).
    destruct (first_path_segment_value u seg Hu Hseg) as (Hp & Hok & _ & Hfree).
    cbn [type vendor_connection id].
    unfold BasicURL.canonical.
    cbn [URL.scheme URL.username URL.password URL.hostname URL.port URL.path
         URL.query URL.fragment URL.query_list BasicURL.text_ok
         BasicURL.query_pairs].
    repeat split; auto.
    + now exists "edge-config.vercel.com".
    + now exists seg.
    + unfold BasicURL.path_ok. cbn [BasicURL.all]. rewrite Hp, split_sep.
      rewrite (split_sep_free "/" seg Hfree).
      cbn [forallb]. now rewrite Hok.
  - apply externalConnection_Some in Hc. cbv zeta in Hc.
    destruct Hc as (_ & _ & _ & _ & _ & _ & ->).
    destruct Hu as (Hn & Hp & Hs & Hh & Hport & Hpath & Hpok & _).
    unfold BasicURL.canonical.
    cbn [URL.scheme URL.username URL.password URL.hostname URL.port URL.path
         URL.query URL.fragment URL.query_list BasicURL.text_ok
         BasicURL.query_pairs].
    repeat split; auto.
Qed.

Ltac normalize_append :=
  repeat first [rewrite append_assoc | rewrite append_nil_r
               | progress cbn [append URL.marked option_map]].

(** The reconstructed string is the serialization of that URL
    object. *)
Lemma toString_reparsed (u : URL.t) (c : Connection) :
  BasicURL.canonical u ->
  vercelConnection u = Some c
  \/ (externalConnection u = Some c /\ URL.fragment u = None) ->
  URL.toString (reparsed u c) = reconstruct c.
Proof.
  intros Hu [Hc|[Hc Hfrag]]; unfold reparsed, reconstruct.
  - apply vercelConnection_Some in Hc. destruct Hc as (seg & tok & _ & ->).
    cbn [type vendor_connection id baseUrl].
    rewrite toString_canonical. unfold BasicURL.host_port. now normalize_append.
  - apply externalConnection_Some in Hc. cbv zeta in Hc.
    destruct Hc as (_ & _ & _ & _ & _ & -> & ->).
    destruct Hu as (Hn & Hp & _ & (h & Hh & _) & _ & (p & Hpath) & _).
    destruct u as [scheme username password hostname port path query fragment
                     pairs].
    cbn [URL.scheme URL.username URL.password URL.hostname URL.port URL.path
         URL.query URL.fragment URL.query_list URL.clear_search] in *.
    subst. unfold URL.clear_search. rewrite cleared_path_rooted
      by (cbn [URL.path]; now rewrite startsWith_cons, startsWith_empty).
    cbn [URL.scheme URL.username URL.password URL.hostname URL.port URL.path
         URL.query URL.fragment URL.query_list].
    rewrite !toString_canonical. now normalize_append.
Qed.

(** The reference constructor reads the reconstructed string as the
    round trip expects. *)
Lemma parse_reconstruct (s : string) (u : URL.t) (c : Connection) :
  BasicURL.parse s = JS.Normal u ->
  parseConnectionString BasicURL.parse s = JS.Normal (Some c) ->
  (type c = external -> URL.fragment u = None) ->
  BasicURL.parse (reconstruct c) = JS.Normal (reparsed u c).
Proof.
  intros Hs Hc Hfrag. pose proof (parse_canonical s u Hs) as Hu.
  apply parseConnectionString_Some in Hc.
  destruct Hc as (u' & Hs' & Hc). assert (u' = u) as -> by congruence.
  assert (Hc' : vercelConnection u = Some c \/ externalConnection u = Some c)
    by tauto.
  rewrite <- (toString_reparsed u c Hu).
  - apply parse_toString. now apply reparsed_canonical.
  - destruct Hc as [Hv|[_ He]]; [now left|right]. split; [exact He|].
    apply Hfrag. now apply externalConnection_Some in He.
Qed.

Lemma clear_search_canonical (u : URL.t) :
  BasicURL.canonical u -> BasicURL.canonical (URL.clear_search u).
Proof.
  intros (Hn & Hp & Hs & Hh & Hport & Hpath & Hpok & _ & Hf & _).
  assert (Hc : URL.cleared_path u = URL.path u).
  { destruct Hpath as [p Hpath]. apply cleared_path_rooted.
    now rewrite Hpath, startsWith_cons, startsWith_empty. }
  unfold BasicURL.canonical, URL.clear_search. rewrite Hc.
  cbn [URL.scheme URL.username URL.password URL.hostname URL.port URL.path
       URL.query URL.fragment URL.query_list BasicURL.text_ok
       BasicURL.query_pairs].
  repeat split; auto.
Qed.

(** On the reference constructor the base URL of a returned connection
    is itself a URL, and a URL without query. *)
Lemma BasicURL_baseUrl_without_query
  (s : string) (u : URL.t) (c : Connection) :
  BasicURL.parse s = JS.Normal u ->
  parseConnectionString BasicURL.parse s = JS.Normal (Some c) ->
  exists base,
    BasicURL.parse (baseUrl c) = JS.Normal base
    /\ URL.query base = None /\ URL.query_list base = [].
Proof.
  intros Hs Hc. pose proof (parse_canonical s u Hs) as Hu.
  apply parseConnectionString_Some in Hc.
  destruct Hc as (u' & Hs' & Hc). assert (u' = u) as -> by congruence.
  destruct Hc as [Hv|[_ He]].
  - exists (URL.clear_search (reparsed u c)).
    split; [|now split].
    assert (Hbase : URL.toString (URL.clear_search (reparsed u c))
                    = baseUrl c).
    { apply vercelConnection_Some in Hv.
      destruct Hv as (seg & tok & _ & ->).
      unfold reparsed, URL.clear_search.
      cbn [type vendor_connection id baseUrl].
      rewrite cleared_path_rooted
      by (cbn [URL.path]; now rewrite startsWith_cons, startsWith_empty).
      cbn [URL.scheme URL.username URL.password URL.hostname URL.port
           URL.path URL.fragment].
      rewrite toString_canonical. unfold BasicURL.host_port.
      now normalize_append. }
    rewrite <- Hbase. apply parse_toString, clear_search_canonical.
    apply reparsed_canonical; [exact Hu|now left].
  - exists (URL.clear_search u). split; [|now split].
    apply externalConnection_Some in He. cbv zeta in He.
    destruct He as (_ & _ & _ & _ & _ & -> & _).
    now apply parse_toString, clear_search_canonical.
Qed.

(** On the reference constructor the round trip holds for every
    connection string without fragment, and for every vendor string. *)
Lemma BasicURL_round_trip (s : string) (u : URL.t) (c : Connection) :
  BasicURL.parse s = JS.Normal u ->
  parseConnectionString BasicURL.parse s = JS.Normal (Some c) ->
  (type c = external -> URL.fragment u = None) ->
  parseConnectionString BasicURL.parse (reconstruct c) = JS.Normal (Some c).
Proof.
  intros Hs Hc Hfrag.
  rewrite (parseConnectionString_Normal BasicURL.parse _ _
             (parse_reconstruct s u c Hs Hc Hfrag)).
  f_equal. apply parseConnectionString_Some in Hc.
  destruct Hc as (u' & Hs' & Hc). assert (u' = u) as -> by congruence.
  now apply round_trip_on_urls.
Qed.

(** ** The parser on concrete connection strings *)

(** The reference constructor on the sample strings. *)
Example parse_samples :
  BasicURL.parse Sample.vendor = JS.Normal Sample.vendor_url
  /\ BasicURL.parse Sample.vendor_loose = JS.Normal Sample.vendor_loose_url
  /\ BasicURL.parse Sample.external_path = JS.Normal Sample.external_path_url
  /\ BasicURL.parse Sample.external_empty_id
     = JS.Normal Sample.external_empty_id_url
  /\ BasicURL.parse Sample.external_fragment
     = JS.Normal Sample.external_fragment_url
  /\ BasicURL.parse "not a url" = JS.Throw BasicURL.TypeError.
Proof. repeat split. Qed.

(** The examples of §8. *)
Example vendor_form :
  parseConnectionString BasicURL.parse
    "https://edge-config.vercel.com/ecfg_abc?token=tkn123"
  = JS.Normal (Some {| type := vercel;
                       baseUrl := "https://edge-config.vercel.com/ecfg_abc";
                       id := "ecfg_abc";
                       version := "1";
                       token := "tkn123" |}).
Proof. reflexivity. Qed.

Example vendor_form_missing_token :
  parseConnectionString BasicURL.parse Sample.vendor_no_token = JS.Normal None.
Proof. reflexivity. Qed.

Example external_query_id :
  parseConnectionString BasicURL.parse
    "https://example.com/?id=abc123&token=tkn123"
  = JS.Normal (Some {| type := external;
                       baseUrl := "https://example.com/";
                       id := "abc123";
                       version := "1";
                       token := "tkn123" |}).
Proof. reflexivity. Qed.

Example external_path_id :
  parseConnectionString BasicURL.parse Sample.external_path
  = JS.Normal (Some Sample.external_path_connection).
Proof. reflexivity. Qed.

Example external_explicit_version :
  parseConnectionString BasicURL.parse Sample.external_version
  = JS.Normal (Some Sample.external_version_connection).
Proof. reflexivity. Qed.

(** The base URL of a vendor connection keeps the first path segment
    only. *)
Example vendor_deep_baseUrl :
  parseConnectionString BasicURL.parse Sample.vendor_deep
  = JS.Normal (Some (vendor_connection "ecfg_abc" "tkn123"))
  /\ baseUrl (vendor_connection "ecfg_abc" "tkn123")
     = "https://edge-config.vercel.com/ecfg_abc".
Proof. split; reflexivity. Qed.

(** ** The theorems on the sample strings *)

(** A vendor string that the external recognizer accepts as well. *)
Lemma parseConnectionString_vendor_first_witness :
  parseConnectionString BasicURL.parse Sample.vendor
  = JS.Normal (Some (vendor_connection "ecfg_abc" "tkn123"))
  /\ type (vendor_connection "ecfg_abc" "tkn123") = vercel
  /\ type (mkConnection external "https://edge-config.vercel.com/ecfg_abc"
             "ecfg_abc" "2" "tkn123") = external.
Proof.
  apply (proj2 (parseConnectionString_vendor_first BasicURL.parse
                  Sample.vendor));
    reflexivity.
Defined.

(** The vendor string is recognized, with version ["1"] in spite of
    [version=2]; the vendor string without token is not. *)
Lemma parseVercelConnectionString_spec_witness :
  parseVercelConnectionString BasicURL.parse Sample.vendor
  = JS.Normal (Some (vendor_connection "ecfg_abc" "tkn123"))
  /\ parseVercelConnectionString BasicURL.parse Sample.vendor_no_token
     = JS.Normal None.
Proof.
  split.
  - apply (proj1 (parseVercelConnectionString_spec BasicURL.parse
                    Sample.vendor)).
    exists Sample.vendor_url, "ecfg_abc", "tkn123".
    split; [reflexivity|]. split; [|reflexivity].
    repeat split; try reflexivity; discriminate.
  - apply (proj2 (parseVercelConnectionString_spec BasicURL.parse
                    Sample.vendor_no_token)).
    intros u seg tok Hu (_ & _ & _ & _ & _ & Htok & _).
    vm_compute in Hu. injection Hu as <-. discriminate Htok.
Defined.

(** A text the URL constructor rejects. *)
Lemma parseConnectionString_never_throws_witness :
  parseConnectionString BasicURL.parse "not a url" = JS.Normal None.
Proof.
  apply (proj2 (parseConnectionString_never_throws BasicURL.parse "not a url")
           BasicURL.TypeError).
  reflexivity.
Defined.

Lemma parseConnectionString_id_token_nonempty_witness :
  id Sample.external_path_connection <> ""
  /\ token Sample.external_path_connection <> "".
Proof.
  apply (parseConnectionString_id_token_nonempty BasicURL.parse
           Sample.external_path).
  reflexivity.
Defined.

(** An explicit version, and the default. *)
Lemma parseExternalConnectionString_version_witness :
  (exists c,
      parseExternalConnectionString BasicURL.parse Sample.external_version
      = JS.Normal (Some c)
      /\ type c = external /\ token c = "tkn123" /\ version c = "2")
  /\ (exists c,
         parseExternalConnectionString BasicURL.parse Sample.external_path
         = JS.Normal (Some c)
         /\ type c = external /\ token c = "tkn123" /\ version c = "1").
Proof.
  split.
  - destruct (proj1 (parseExternalConnectionString_version BasicURL.parse
                       Sample.external_version)
                external_version_url "tkn123" eq_refl eq_refl)
      as (c & Hc & Htype & Htok & Hv & _);
      [discriminate|right; reflexivity|].
    exists c. repeat split; try assumption.
    apply Hv; [reflexivity|discriminate].
  - destruct (proj1 (parseExternalConnectionString_version BasicURL.parse
                       Sample.external_path)
                Sample.external_path_url "tkn123" eq_refl eq_refl)
      as (c & Hc & Htype & Htok & _ & Hd);
      [discriminate|left; reflexivity|].
    exists c. repeat split; try assumption.
    apply Hd. left. reflexivity.
Defined.



(** The first segment [ecfgtest] on the vendor host. *)
Lemma parseConnectionString_vendor_prefix_witness :
  parseConnectionString BasicURL.parse Sample.vendor_loose
  = JS.Normal (Some (vendor_connection "ecfgtest" "tkn123"))
  /\ JS.startsWith (URL.pathname Sample.vendor_loose_url) "/ecfg_" = false
  /\ (forall q,
         URL.searchParams_get Sample.vendor_loose_url "id" = Some q ->
         q <> "" ->
         exists ce,
           parseExternalConnectionString BasicURL.parse Sample.vendor_loose
           = JS.Normal (Some ce)
           /\ id ce = q).
Proof.
  apply (parseConnectionString_vendor_prefix BasicURL.parse
           Sample.vendor_loose Sample.vendor_loose_url "ecfgtest" "tkn123");
    try reflexivity; discriminate.
Defined.

Lemma parseConnectionString_baseUrl_no_query_witness :
  (exists u,
      BasicURL.parse Sample.external_fragment = JS.Normal u
      /\ baseUrl Sample.external_fragment_connection
         = URL.toString (URL.clear_search u)
      /\ URL.cleared_path u = URL.path u)
  /\ (exists u,
         RootlessURL.parse rootless_space = JS.Normal u
         /\ baseUrl rootless_space_connection
            = URL.toString (URL.clear_search u)
         /\ URL.cleared_path u = URL.strip_trailing_spaces (URL.path u)
         /\ JS.includes (baseUrl rootless_space_connection) "?" = false).
Proof.
  split.
  - destruct (parseConnectionString_baseUrl_no_query BasicURL.parse
                Sample.external_fragment Sample.external_fragment_connection
                eq_refl)
      as (u & Hu & (Hbase & _ & Hkept & _) & _).
    exists u. split; [exact Hu|]. split; [exact Hbase|].
    apply Hkept. left.
    vm_compute in Hu. injection Hu as <-. reflexivity.
  - destruct (parseConnectionString_baseUrl_no_query RootlessURL.parse
                rootless_space rootless_space_connection eq_refl)
      as (u & Hu & (Hbase & _ & _ & Hstripped) & Hfree).
    exists u. split; [exact Hu|]. split; [exact Hbase|].
    vm_compute in Hu. injection Hu as <-.
    split; [now apply Hstripped|].
    apply Hfree. repeat split; try reflexivity; discriminate.
Defined.


(** C6, as stated, fails: the base URL of an external connection keeps
    the fragment of the input, so it is not scheme, host and path
    only. *)
Lemma baseUrl_keeps_fragment :
  parseConnectionString BasicURL.parse Sample.external_fragment
  = JS.Normal (Some Sample.external_fragment_connection)
  /\ BasicURL.parse Sample.external_fragment
     = JS.Normal Sample.external_fragment_url
  /\ scheme_host_path Sample.external_fragment_url = "https://example.com/cfg"
  /\ baseUrl Sample.external_fragment_connection
     <> scheme_host_path Sample.external_fragment_url.
Proof. repeat split. discriminate. Qed.


(** ** Further properties of the recognizers *)

Section Recognizers.

Variable new_URL : string -> JS.completion URL.t.

(** The external recognizer returns a connection exactly for the
    strings that parse as a URL with a non-empty first [token]
    parameter and an id settled as [external_id_resolution] says; the
    connection is then [external_connection].  Scheme and host play no
    part. *)
Theorem parseExternalConnectionString_spec (s : string) (c : Connection) :
  parseExternalConnectionString new_URL s = JS.Normal (Some c) <->
  exists u i tok,
    new_URL s = JS.Normal u
    /\ external_id_resolution u i
    /\ URL.searchParams_get u "token" = Some tok /\ tok <> ""
    /\ c = external_connection u i tok.
Proof.
  destruct (parseExternal_cases new_URL s) as [(u & Hu & He)|(e & Hu & He)];
    rewrite He; split.
  - intros H. injection H as H. apply externalConnection_spec in H.
    destruct H as (i & tok & H). now exists u, i, tok.
  - intros (u' & i & tok & Hu' & H). assert (u' = u) as -> by congruence.
    f_equal. apply externalConnection_spec. now exists i, tok.
  - discriminate.
  - intros (u' & _ & _ & Hu' & _). congruence.
Qed.

(** [parseConnectionString] returns a connection exactly when the
    string parses as a URL whose first [token] parameter is not empty
    and whose [id] parameter or first path segment is not empty. *)
Theorem parseConnectionString_accepts (s : string) :
  (exists c, parseConnectionString new_URL s = JS.Normal (Some c)) <->
  exists u,
    new_URL s = JS.Normal u
    /\ JS.truthy (URL.searchParams_get u "token") = true
    /\ (JS.truthy (URL.searchParams_get u "id") = true
        \/ JS.truthy (first_path_segment u) = true).
Proof.
  split.
  - intros [c H]. apply parseConnectionString_Some in H.
    destruct H as (u & Hu & [Hv|[_ He]]); exists u; (split; [exact Hu|]).
    + apply vercelConnection_Some in Hv.
      destruct Hv as (seg & tok & (_ & _ & _ & Hseg & Hne & Htok & Hte) & _).
      unfold first_path_segment. rewrite Htok, Hseg.
      split; [|right]; now apply truthy_nonempty.
    + apply externalConnection_spec in He.
      destruct He as (i & tok & Hres & Htok & Hte & _). rewrite Htok.
      split; [now apply truthy_nonempty|].
      destruct Hres as [[Hpre Hseg]|[(_ & Hid & Hne)|(_ & _ & Hseg & Hne)]].
      * right. rewrite Hseg. apply truthy_nonempty.
        destruct (prefix_in_first_segment u "ecfg_" i eq_refl Hpre Hseg)
          as [Hstart _].
        apply (startsWith_nonempty _ _ Hstart). discriminate.
      * left. rewrite Hid. now apply truthy_nonempty.
      * right. rewrite Hseg. now apply truthy_nonempty.
  - intros (u & Hu & Htok & Hid).
    rewrite (parseConnectionString_Normal new_URL s u Hu).
    destruct (vercelConnection u) as [c|]; [now exists c|].
    apply truthy_Some in Htok. destruct Htok as (tok & Htok & Hte).
    assert (He : exists i, external_id_resolution u i).
    { unfold external_id_resolution.
      destruct (JS.startsWith (URL.pathname u) "/ecfg_") eqn:Hpre.
      - assert (Hroot : JS.startsWith (URL.pathname u) "/" = true)
          by now apply (startsWith_shorter _ _ _ Hpre).
        destruct (first_segment_of_rooted_path u Hroot) as (i & Hi & _).
        exists i. now left.
      - destruct (JS.truthy (URL.searchParams_get u "id")) eqn:Ht.
        + apply truthy_Some in Ht. destruct Ht as (i & Hi & Hne).
          exists i. right. left. now repeat split.
        + destruct Hid as [Hid|Hid]; [discriminate|].
          apply truthy_Some in Hid. destruct Hid as (i & Hi & Hne).
          exists i. right. right. now repeat split. }
    destruct He as [i Hres]. exists (external_connection u i tok).
    f_equal. apply externalConnection_spec. now exists i, tok.
Qed.

(** The vendor recognizer never returns on the check [if (!id)]: a path
    that starts with [/ecfg] has a first segment that starts with
    [ecfg].  It accepts exactly the [https] URLs of the vendor host
    whose path starts with [/ecfg] and whose first [token] parameter is
    not empty, and the id of its connection starts with [ecfg], holds
    no slash and ends the base URL. *)
Theorem parseVercelConnectionString_id (s : string) :
  ((exists c, parseVercelConnectionString new_URL s = JS.Normal (Some c)) <->
   exists u,
     new_URL s = JS.Normal u
     /\ URL.scheme u = "https"
     /\ URL.host u = "edge-config.vercel.com"
     /\ JS.startsWith (URL.pathname u) "/ecfg" = true
     /\ JS.truthy (URL.searchParams_get u "token") = true)
  /\ (forall c,
         parseVercelConnectionString new_URL s = JS.Normal (Some c) ->
         JS.startsWith (id c) "ecfg" = true
         /\ JS.includes (id c) "/" = false
         /\ baseUrl c = "https://edge-config.vercel.com/" ++ id c).
Proof.
  destruct (parseVercel_cases new_URL s) as [(u & Hu & Hv)|(e & Hu & Hv)];
    rewrite Hv; split.
  - split.
    + intros [c H]. injection H as H. apply vercelConnection_Some in H.
      destruct H as (seg & tok & (Hs & Hh & Hp & _ & _ & Htok & Hte) & _).
      exists u. rewrite Htok. repeat split; try assumption.
      now apply truthy_nonempty.
    + intros (u' & Hu' & Hs & Hh & Hp & Htok).
      assert (u' = u) as -> by congruence.
      apply truthy_Some in Htok. destruct Htok as (tok & Htok & Hte).
      assert (Hroot : JS.startsWith (URL.pathname u) "/" = true)
        by now apply (startsWith_shorter _ _ _ Hp).
      destruct (first_segment_of_rooted_path u Hroot) as (seg & Hseg & _).
      destruct (prefix_in_first_segment u "ecfg" seg eq_refl Hp Hseg)
        as [Hstart _].
      exists (vendor_connection seg tok). f_equal.
      apply vercelConnection_Some. exists seg, tok.
      split; [|reflexivity]. repeat split; try assumption.
      apply (startsWith_nonempty _ _ Hstart). discriminate.
  - intros c H. injection H as H. apply vercelConnection_Some in H.
    destruct H as (seg & tok & (_ & _ & Hp & Hseg & _) & ->).
    destruct (prefix_in_first_segment u "ecfg" seg eq_refl Hp Hseg)
      as [Hstart Hfree].
    now repeat split.
  - split; [intros [c H]; discriminate|].
    intros (u' & Hu' & _). congruence.
  - discriminate.
Qed.

(** A port in the URL defeats the vendor recognizer, whose test reads
    [url.host], host name and port: the vendor host with an explicit
    port other than 443 is never a vendor connection; what
    [parseConnectionString] returns for it is an external one. *)
Theorem parseConnectionString_port (s : string) (u : URL.t) (p : N) :
  new_URL s = JS.Normal u ->
  URL.port u = Some p ->
  parseVercelConnectionString new_URL s = JS.Normal None
  /\ parseConnectionString new_URL s
     = parseExternalConnectionString new_URL s
  /\ (forall c,
         parseConnectionString new_URL s = JS.Normal (Some c) ->
         type c = external).
Proof.
  intros Hu Hp.
  assert (Hv : vercelConnection u = None).
  { destruct (vercelConnection u) as [c|] eqn:Hc; [|reflexivity].
    apply vercelConnection_Some in Hc.
    destruct Hc as (seg & tok & (_ & Hh & _) & _).
    now destruct (host_with_port u p Hp). }
  assert (Hvs : parseVercelConnectionString new_URL s = JS.Normal None).
  { unfold parseVercelConnectionString. rewrite Hu. simpl. now rewrite Hv. }
  split; [exact Hvs|]. split.
  - unfold parseConnectionString. now rewrite Hvs.
  - intros c H. apply parseConnectionString_Some in H.
    destruct H as (u' & Hu' & H). assert (u' = u) as -> by congruence.
    destruct H as [H|[_ H]]; [congruence|].
    now apply externalConnection_Some in H.
Qed.

(** The version of a returned connection is never empty; a vendor
    connection has version ["1"], and only an external connection can
    have another one. *)
Theorem parseConnectionString_version (s : string) (c : Connection) :
  parseConnectionString new_URL s = JS.Normal (Some c) ->
  version c <> ""
  /\ (type c = vercel -> version c = "1")
  /\ (version c <> "1" ->
      type c = external
      /\ exists u, new_URL s = JS.Normal u
                   /\ URL.searchParams_get u "version" = Some (version c)).
Proof.
  intros H. apply parseConnectionString_Some in H.
  destruct H as (u & Hu & [Hv|[_ He]]).
  - apply vercelConnection_Some in Hv. destruct Hv as (seg & tok & _ & ->).
    simpl. repeat split; try discriminate; congruence.
  - apply externalConnection_Some in He. cbv zeta in He.
    destruct He as (_ & _ & _ & _ & Hver & _ & Htype). rewrite Htype.
    split; [|split].
    + rewrite Hver. apply or_default_nonempty. discriminate.
    + discriminate.
    + intros Hne. split; [reflexivity|]. exists u. split; [exact Hu|].
      rewrite Hver in *.
      destruct (URL.searchParams_get u "version") as [[|a v]|];
        simpl in *; congruence.
Qed.

End Recognizers.

(** ** The assertions, [isDynamicServerError] and [pick] *)

Lemma get_own_set_own
  (key : string) (v : value) (props : list (string * value)) :
  get_own key (set_own key v props) = Some v.
Proof.
  induction props as [|[k x] props IH]; simpl.
  - now rewrite String.eqb_refl.
  - destruct (k =? key) eqn:E; simpl; now rewrite E.
Qed.

Lemma get_own_set_own_other
  (key key' : string) (v : value) (props : list (string * value)) :
  key' <> key -> get_own key' (set_own key v props) = get_own key' props.
Proof.
  intros Hne. induction props as [|[k x] props IH]; simpl.
  - apply String.eqb_neq in Hne. now rewrite String.eqb_sym, Hne.
  - destruct (String.eqb_spec k key) as [->|]; simpl.
    + apply String.eqb_neq in Hne. now rewrite String.eqb_sym, Hne.
    + now rewrite IH.
Qed.

Lemma set_own_keys
  (key key' : string) (v : value) (props : list (string * value)) :
  In key' (map fst (set_own key v props)) <->
  key' = key \/ In key' (map fst props).
Proof.
  induction props as [|[k x] props IH]; simpl.
  - intuition.
  - destruct (String.eqb_spec k key) as [->|]; simpl; intuition.
Qed.

Lemma set_own_NoDup (key : string) (v : value) (props : list (string * value)) :
  NoDup (map fst props) -> NoDup (map fst (set_own key v props)).
Proof.
  induction props as [|[k x] props IH]; simpl; intros H.
  - repeat constructor. intros [].
  - inversion H as [|? ? Hk Hrest]; subst.
    destruct (String.eqb_spec k key) as [->|Hne]; simpl.
    + now constructor.
    + constructor; [|now apply IH].
      rewrite set_own_keys. intros [->|Hin]; [congruence|contradiction].
Qed.

Lemma set_own_entries
  (key key' : string) (v x : value) (props : list (string * value)) :
  In (key', x) (set_own key v props) ->
  (key' = key /\ x = v) \/ In (key', x) props.
Proof.
  induction props as [|[k y] props IH]; simpl.
  - intros [H|[]]. injection H as <- <-. now left.
  - destruct (String.eqb_spec k key) as [->|]; simpl.
    + intros [H|H]; [injection H as <- <-; now left|auto].
    + intros [H|H]; [auto|]. destruct (IH H); auto.
Qed.

Lemma get_own_None (key : string) (props : list (string * value)) :
  get_own key props = None <-> ~ In key (map fst props).
Proof.
  induction props as [|[k x] props IH]; simpl; [intuition|].
  destruct (String.eqb_spec k key) as [->|Hne].
  - split; [discriminate|]. intros H. destruct H. now left.
  - rewrite IH. intuition.
Qed.

Lemma Array_some_Exists (callback : value -> bool) (els : list (option value)) :
  Array_some callback els = true <->
  exists v, In (Some v) els /\ callback v = true.
Proof.
  induction els as [|[v|] els IH]; simpl.
  - split; [discriminate|]. now intros (v & [] & _).
  - rewrite orb_true_iff, IH. split.
    + intros [H|(w & Hin & H)]; [exists v|exists w]; auto.
    + intros (w & [Hw|Hin] & H).
      * injection Hw as <-. now left.
      * right. now exists w.
  - rewrite IH. split; intros (w & Hin & H); exists w; split; auto.
    destruct Hin as [|Hin]; [discriminate|exact Hin].
Qed.

Section UtilProperties.

Variable h : Heap.t.

Lemma typeof_string (v : value) :
  (typeof h v =? "string") = true <-> exists s, v = VString s.
Proof.
  split.
  - destruct v; simpl; try discriminate; [now eexists|].
    now destruct (Heap.callable h ref).
  - now intros [s ->].
Qed.

(** [assertIsKeys] returns for the arrays whose elements, where there
    is one, are strings: a hole passes.  It throws its error for every
    other value.  The elements it lets pass are those [assertIsKey]
    lets pass, the strings. *)
Theorem assertIsKeys_spec (keys : value) :
  (assertIsKeys h keys = JS.Normal tt <->
   exists r els,
     keys = VObject r /\ Heap.array_elements h r = Some els
     /\ forall v, In (Some v) els -> exists s, v = VString s)
  /\ (assertIsKeys h keys <> JS.Normal tt ->
      assertIsKeys h keys
      = JS.Throw "@vercel/edge-config: Expected keys to be an array of string")
  /\ (forall v, assertIsKey h v = JS.Normal tt <-> exists s, v = VString s).
Proof.
  split; [|split].
  - unfold assertIsKeys, Array_isArray, elements. split.
    + destruct keys; simpl; try discriminate.
      destruct (Heap.array_elements h ref) as [els|] eqn:E; simpl;
        [|discriminate].
      destruct (Array_some _ els) eqn:Hs; [discriminate|]. intros _.
      exists ref, els. split; [reflexivity|]. split; [exact E|].
      intros v Hin. apply typeof_string.
      destruct (typeof h v =? "string") eqn:Ht; [reflexivity|].
      assert (Array_some (fun key => negb (typeof h key =? "string")) els
              = true)
        by (apply Array_some_Exists; exists v; now rewrite Ht).
      congruence.
    + intros (r & els & -> & E & Hall). rewrite E. simpl.
      destruct (Array_some _ els) eqn:Hs; [|reflexivity].
      apply Array_some_Exists in Hs. destruct Hs as (v & Hin & Hv).
      apply Hall, typeof_string in Hin. now rewrite Hin in Hv.
  - unfold assertIsKeys. now destruct (_ || _).
  - intros v. unfold assertIsKey. rewrite <- typeof_string.
    destruct (typeof h v =? "string"); simpl; split; congruence.
Qed.

(** [isDynamicServerError] can be called on any value: on [undefined]
    and [null], where [hasOwnProperty] throws, and on every other
    primitive it returns [false]; on an object it returns a boolean
    unless [digest] is an own accessor whose getter throws. *)
Theorem isDynamicServerError_total (error : value) :
  (forall prop, error = VUndefined \/ error = VNull ->
                hasOwnProperty h error prop = JS.Throw TypeError)
  /\ ((forall r, error <> VObject r) ->
      isDynamicServerError h error = JS.Normal false)
  /\ ((forall r e, error = VObject r ->
                   Heap.own_property h r "digest"
                   <> Some (Accessor (JS.Throw e))) ->
      exists b, isDynamicServerError h error = JS.Normal b).
Proof.
  split; [|split].
  - intros prop [-> | ->]; reflexivity.
  - intros H. destruct error; try reflexivity. now destruct (H ref).
  - intros H. unfold isDynamicServerError.
    destruct error; simpl; try (now eexists).
    destruct (Heap.error_instance h ref); [|now eexists].
    destruct (Heap.own_property h ref "digest") as [[v|[v|e]]|] eqn:E;
      simpl; try (now eexists).
    now destruct (H ref e eq_refl).
Qed.

(** [isDynamicServerError] returns [true] exactly for the objects that
    have [Error.prototype] on their prototype chain and an own property
    [digest] whose value is the string [DYNAMIC_SERVER_USAGE]; a digest
    that is only inherited does not count. *)
Theorem isDynamicServerError_true (error : value) :
  isDynamicServerError h error = JS.Normal true <->
  exists r,
    error = VObject r
    /\ Heap.error_instance h r = true
    /\ (Heap.own_property h r "digest"
        = Some (Data (VString "DYNAMIC_SERVER_USAGE"))
        \/ Heap.own_property h r "digest"
           = Some (Accessor (JS.Normal (VString "DYNAMIC_SERVER_USAGE")))).
Proof.
  unfold isDynamicServerError. split.
  - destruct error; simpl; try discriminate.
    destruct (Heap.error_instance h ref) eqn:Hi; [|discriminate].
    destruct (Heap.own_property h ref "digest") as [[v|[v|e]]|] eqn:E;
      simpl; try discriminate; intros H; injection H as H;
      destruct v; simpl in H; try discriminate;
      apply String.eqb_eq in H; subst; exists ref; auto.
  - intros (r & -> & Hi & [E|E]); simpl; now rewrite Hi, E.
Qed.

(** The loop of [pick], from any object built so far. *)
Lemma pick_loop_plain
  (obj : value) (f : string -> value) (keys : list (option string))
  (ret0 : fresh_object) :
  (forall k, In (Some k) keys ->
             Heap.chain_slot h (Heap.Object_prototype h) k <> ReadOnly
             /\ Heap.chain_slot h (Heap.Object_prototype h) k <> ProtoSetter
             /\ Get h obj k = JS.Normal (f k)) ->
  prototype ret0 = Some (Heap.Object_prototype h) ->
  exists ret,
    Array_forEach (fun key ret => v <- Get h obj key ;; assign h ret key v)
      keys ret0 = JS.Normal ret
    /\ prototype ret = Some (Heap.Object_prototype h)
    /\ (forall k, In k (map fst (own ret)) <->
                  In k (map fst (own ret0)) \/ In (Some k) keys)
    /\ (forall k, In (Some k) keys -> get_own k (own ret) = Some (f k))
    /\ (forall k, ~ In (Some k) keys ->
                  get_own k (own ret) = get_own k (own ret0))
    /\ (NoDup (map fst (own ret0)) -> NoDup (map fst (own ret))).
Proof.
  revert ret0. induction keys as [|[key|] keys IH]; intros ret0 Hkeys Hproto.
  - exists ret0. simpl. repeat split; auto; intuition.
  - destruct (Hkeys key (or_introl eq_refl)) as (Hro & Hps & Hget).
    assert (Hassign : assign h ret0 key (f key)
                      = JS.Normal (mkFresh (prototype ret0)
                                     (set_own key (f key) (own ret0)))).
    { unfold assign. destruct (get_own key (own ret0)); [reflexivity|].
      rewrite Hproto.
      now destruct (Heap.chain_slot h (Heap.Object_prototype h) key). }
    destruct (IH (mkFresh (prototype ret0) (set_own key (f key) (own ret0))))
      as (ret & Hrun & Hp & Hin & Hval & Hkeep & Hnd).
    { intros k Hk. apply Hkeys. now right. }
    { exact Hproto. }
    exists ret. cbn [Array_forEach]. rewrite Hget. cbn [JS.bind].
    rewrite Hassign. cbn [JS.bind]. cbn [own] in *.
    split; [exact Hrun|]. split; [exact Hp|]. split; [|split; [|split]].
    + intros k. rewrite Hin, set_own_keys. simpl. split.
      * intros [[->|H]|H]; auto.
      * intros [H|[H|H]]; auto. injection H as ->. auto.
    + intros k [Hk|Hk].
      * injection Hk as <-.
        assert (dec : forall a b : option string, {a = b} + {a <> b})
          by (decide equality; apply string_dec).
        destruct (in_dec dec (Some key) keys) as [Hin'|Hout];
          [now apply Hval|].
        rewrite (Hkeep key Hout). apply get_own_set_own.
      * now apply Hval.
    + intros k Hk. rewrite Hkeep by (intros H; apply Hk; now right).
      apply get_own_set_own_other. intros ->. apply Hk. now left.
    + intros H. apply Hnd. now apply set_own_NoDup.
  - destruct (IH ret0) as (ret & Hrun & Hp & Hin & Hval & Hkeep & Hnd).
    { intros k Hk. apply Hkeys. now right. }
    { exact Hproto. }
    exists ret. cbn [Array_forEach].
    split; [exact Hrun|]. split; [exact Hp|]. split; [|split; [|split]].
    + intros k. rewrite Hin. simpl. split.
      * intros [H|H]; auto.
      * intros [H|[H|H]]; auto. discriminate.
    + intros k [Hk|Hk]; [discriminate|now apply Hval].
    + intros k Hk. apply Hkeep. intros H. apply Hk. now right.
    + exact Hnd.
Qed.

End UtilProperties.

Section PickProperties.

Variable h : Heap.t.

Lemma assign_entries
  (ret ret' : fresh_object) (key k : string) (v x : value) :
  assign h ret key v = JS.Normal ret' ->
  In (k, x) (own ret') -> In (k, x) (own ret) \/ (k = key /\ x = v).
Proof.
  unfold assign. intros H Hin.
  assert (Hset : In (k, x) (set_own key v (own ret)) ->
                 In (k, x) (own ret) \/ (k = key /\ x = v))
    by (intros Hs; destruct (set_own_entries _ _ _ _ _ Hs); auto).
  destruct (get_own key (own ret)).
  - injection H as <-. now apply Hset.
  - destruct (match prototype ret with
              | Some p => Heap.chain_slot h p key
              | None => Absent
              end);
      try discriminate; injection H as <-; try (now apply Hset).
    left. destruct v; exact Hin.
Qed.

Lemma pick_loop_entries
  (obj : value) (keys : list (option string)) (ret0 ret : fresh_object) :
  Array_forEach (fun key ret => v <- Get h obj key ;; assign h ret key v)
    keys ret0 = JS.Normal ret ->
  forall k x,
    In (k, x) (own ret) ->
    In (k, x) (own ret0) \/ (In (Some k) keys /\ Get h obj k = JS.Normal x).
Proof.
  revert ret0. induction keys as [|[key|] keys IH]; intros ret0 Hrun k x Hin.
  - injection Hrun as <-. now left.
  - cbn [Array_forEach] in Hrun.
    destruct (Get h obj key) as [v|e] eqn:Hget; [|discriminate].
    cbn [JS.bind] in Hrun.
    destruct (assign h ret0 key v) as [ret1|e] eqn:Ha; [|discriminate].
    cbn [JS.bind] in Hrun.
    destruct (IH ret1 Hrun k x Hin) as [H|[H Hg]].
    + destruct (assign_entries _ _ _ _ _ _ Ha H) as [H'|[-> ->]];
        [now left|right]. split; [now left|exact Hget].
    + right. split; [now right|exact Hg].
  - cbn [Array_forEach] in Hrun.
    destruct (IH ret0 Hrun k x Hin) as [H|[H Hg]]; [now left|right].
    split; [now right|exact Hg].
Qed.

Lemma pick_loop_holes
  (obj : value) (keys : list (option string)) (ret0 : fresh_object) :
  (forall k, ~ In (Some k) keys) ->
  Array_forEach (fun key ret => v <- Get h obj key ;; assign h ret key v)
    keys ret0 = JS.Normal ret0.
Proof.
  induction keys as [|[key|] keys IH]; intros H.
  - reflexivity.
  - destruct (H key). now left.
  - cbn [Array_forEach]. apply IH. intros k Hk. apply (H k). now right.
Qed.

Lemma pick_loop_throws
  (obj : value) (keys : list (option string)) (ret0 : fresh_object)
  (k : string) :
  obj = VUndefined \/ obj = VNull ->
  In (Some k) keys ->
  Array_forEach (fun key ret => v <- Get h obj key ;; assign h ret key v)
    keys ret0 = JS.Throw TypeError.
Proof.
  intros Hobj. induction keys as [|[key|] keys IH]; intros Hin.
  - destruct Hin.
  - cbn [Array_forEach]. now destruct Hobj as [-> | ->].
  - cbn [Array_forEach]. apply IH. destruct Hin as [|Hin]; [discriminate|].
    exact Hin.
Qed.

(** When no key is [__proto__] or read-only on [Object.prototype] and
    every read [obj[key]] returns, [pick] returns an object with
    prototype [Object.prototype] whose own properties are exactly the
    keys of the array, each once and each with the value [obj[key]]: a
    key that [obj] lacks becomes an own property with the value
    [undefined], an inherited property becomes an own one, a key given
    twice is written once, and a hole is skipped. *)
Theorem pick_plain_keys
  (obj : value) (f : string -> value) (keys : list (option string)) :
  (forall k, In (Some k) keys ->
             Heap.chain_slot h (Heap.Object_prototype h) k <> ReadOnly
             /\ Heap.chain_slot h (Heap.Object_prototype h) k <> ProtoSetter
             /\ Get h obj k = JS.Normal (f k)) ->
  exists ret,
    pick h obj keys = JS.Normal ret
    /\ prototype ret = Some (Heap.Object_prototype h)
    /\ (forall k, In k (map fst (own ret)) <-> In (Some k) keys)
    /\ (forall k, In (Some k) keys -> get_own k (own ret) = Some (f k))
    /\ NoDup (map fst (own ret)).
Proof.
  intros Hkeys.
  destruct (pick_loop_plain h obj f keys
              (mkFresh (Some (Heap.Object_prototype h)) []) Hkeys eq_refl)
    as (ret & Hrun & Hp & Hin & Hval & _ & Hnd).
  exists ret. split; [exact Hrun|]. split; [exact Hp|].
  split; [|split; [exact Hval|apply Hnd; constructor]].
  intros k. rewrite Hin. simpl. tauto.
Qed.

(** [pick] reads [obj] once for each key that is not a hole: with no
    such key it returns the empty object whatever [obj] is, also for
    [undefined] and [null]; with one, it throws a [TypeError] on
    [undefined] and on [null]. *)
Theorem pick_reads (obj : value) (keys : list (option string)) :
  ((forall k, ~ In (Some k) keys) ->
   pick h obj keys = JS.Normal (mkFresh (Some (Heap.Object_prototype h)) []))
  /\ (forall k,
         obj = VUndefined \/ obj = VNull -> In (Some k) keys ->
         pick h obj keys = JS.Throw TypeError).
Proof.
  split.
  - apply pick_loop_holes.
  - intros k Hobj Hin. now apply (pick_loop_throws obj keys _ k).
Qed.

(** An own property of the object [pick] returns has a key of the array
    and the value read from [obj] for that key: [pick] adds nothing of
    its own, whatever the keys are. *)
Theorem pick_only_reads
  (obj : value) (keys : list (option string)) (ret : fresh_object) :
  pick h obj keys = JS.Normal ret ->
  forall k x,
    In (k, x) (own ret) -> In (Some k) keys /\ Get h obj k = JS.Normal x.
Proof.
  intros Hrun k x Hin.
  destruct (pick_loop_entries obj keys _ ret Hrun k x Hin) as [[]|H].
  exact H.
Qed.

End PickProperties.

(** ** The further properties on examples *)

(** The path [/ecfg_xyz] settles the id of the external sample. *)
Lemma parseExternalConnectionString_spec_witness :
  parseExternalConnectionString BasicURL.parse Sample.external_path
  = JS.Normal (Some (external_connection Sample.external_path_url
                       "ecfg_xyz" "tkn123")).
Proof.
  apply (proj2 (parseExternalConnectionString_spec BasicURL.parse
                  Sample.external_path _)).
  exists Sample.external_path_url, "ecfg_xyz", "tkn123".
  split; [reflexivity|]. split; [left; split; reflexivity|].
  split; [reflexivity|]. split; [discriminate|reflexivity].
Defined.

(** [id=] is empty, the path segment [cfg] is not. *)
Lemma parseConnectionString_accepts_witness :
  exists c,
    parseConnectionString BasicURL.parse Sample.external_empty_id
    = JS.Normal (Some c).
Proof.
  apply (proj2 (parseConnectionString_accepts BasicURL.parse
                  Sample.external_empty_id)).
  exists Sample.external_empty_id_url.
  split; [reflexivity|]. split; [reflexivity|right; reflexivity].
Defined.

Lemma parseVercelConnectionString_id_witness :
  JS.startsWith (id (vendor_connection "ecfg_abc" "tkn123")) "ecfg" = true
  /\ JS.includes (id (vendor_connection "ecfg_abc" "tkn123")) "/" = false
  /\ baseUrl (vendor_connection "ecfg_abc" "tkn123")
     = "https://edge-config.vercel.com/"
       ++ id (vendor_connection "ecfg_abc" "tkn123").
Proof.
  apply (proj2 (parseVercelConnectionString_id BasicURL.parse Sample.vendor)).
  reflexivity.
Defined.

(** The vendor host with port 8443 gives an external connection. *)
Lemma parseConnectionString_port_witness :
  parseVercelConnectionString BasicURL.parse vendor_with_port = JS.Normal None
  /\ parseConnectionString BasicURL.parse vendor_with_port
     = parseExternalConnectionString BasicURL.parse vendor_with_port
  /\ (forall c,
         parseConnectionString BasicURL.parse vendor_with_port
         = JS.Normal (Some c) ->
         type c = external).
Proof.
  apply (parseConnectionString_port BasicURL.parse vendor_with_port
           vendor_with_port_url 8443);
    reflexivity.
Defined.

Lemma parseConnectionString_version_witness :
  version Sample.external_version_connection <> ""
  /\ (type Sample.external_version_connection = vercel ->
      version Sample.external_version_connection = "1")
  /\ (version Sample.external_version_connection <> "1" ->
      type Sample.external_version_connection = external
      /\ exists u,
           BasicURL.parse Sample.external_version = JS.Normal u
           /\ URL.searchParams_get u "version"
              = Some (version Sample.external_version_connection)).
Proof.
  apply (parseConnectionString_version BasicURL.parse Sample.external_version).
  reflexivity.
Defined.

(** The array [['a', , 'b']] passes. *)
Lemma assertIsKeys_spec_witness :
  assertIsKeys sample_heap (VObject 1) = JS.Normal tt.
Proof.
  apply (proj1 (assertIsKeys_spec sample_heap (VObject 1))).
  exists 1%N, [Some (VString "a"); None; Some (VString "b")].
  split; [reflexivity|]. split; [reflexivity|].
  intros v [H|[H|[H|[]]]]; try discriminate; injection H as <-; now eexists.
Defined.

Lemma isDynamicServerError_total_witness :
  hasOwnProperty sample_heap VNull "digest" = JS.Throw TypeError
  /\ isDynamicServerError sample_heap VNull = JS.Normal false
  /\ exists b, isDynamicServerError sample_heap (VObject 3) = JS.Normal b.
Proof.
  destruct (isDynamicServerError_total sample_heap VNull) as (H1 & H2 & _).
  destruct (isDynamicServerError_total sample_heap (VObject 3)) as (_ & _ & H3).
  split; [apply H1; now right|]. split; [apply H2; discriminate|].
  apply H3. intros r e Hr. injection Hr as <-. discriminate.
Defined.

Lemma isDynamicServerError_true_witness :
  isDynamicServerError sample_heap (VObject 2) = JS.Normal true.
Proof.
  apply (proj2 (isDynamicServerError_true sample_heap (VObject 2))).
  exists 2%N. split; [reflexivity|]. split; [reflexivity|left; reflexivity].
Defined.

(** [pick({ a: 'x' }, ['a', , 'b', 'toString', 'a'])] *)
Lemma pick_plain_keys_witness :
  exists ret,
    pick sample_heap (VObject 3)
      [Some "a"; None; Some "b"; Some "toString"; Some "a"]
    = JS.Normal ret
    /\ prototype ret = Some 10%N
    /\ (forall k,
           In k (map fst (own ret)) <->
           In (Some k) [Some "a"; None; Some "b"; Some "toString"; Some "a"])
    /\ (forall k,
           In (Some k) [Some "a"; None; Some "b"; Some "toString"; Some "a"] ->
           get_own k (own ret)
           = Some (if k =? "a" then VString "x"
                   else if k =? "toString" then VObject 11
                   else VUndefined))
    /\ NoDup (map fst (own ret)).
Proof.
  apply (pick_plain_keys sample_heap (VObject 3)
           (fun k => if k =? "a" then VString "x"
                     else if k =? "toString" then VObject 11
                     else VUndefined)).
  intros k [H|[H|[H|[H|[H|[]]]]]]; try discriminate; injection H as <-;
    repeat split; discriminate.
Defined.

Lemma pick_reads_witness :
  pick sample_heap VUndefined [None; None]
  = JS.Normal (mkFresh (Some 10%N) [])
  /\ pick sample_heap VUndefined [None; Some "a"] = JS.Throw TypeError.
Proof.
  split.
  - apply (proj1 (pick_reads sample_heap VUndefined [None; None])).
    intros k [H|[H|[]]]; discriminate.
  - apply (proj2 (pick_reads sample_heap VUndefined [None; Some "a"]) "a");
      [now left|right; now left].
Defined.

Lemma pick_only_reads_witness :
  In (Some "b") [Some "a"; Some "b"]
  /\ Get sample_heap (VObject 3) "b" = JS.Normal VUndefined.
Proof.
  apply (pick_only_reads sample_heap (VObject 3) [Some "a"; Some "b"]
           (mkFresh (Some 10%N) [("a", VString "x"); ("b", VUndefined)])
           eq_refl "b" VUndefined).
  right. now left.
Defined.



(** [url.search = ''] strips the space at the end of an opaque path. *)
Example rootless_space_baseUrl :
  parseConnectionString RootlessURL.parse rootless_space
  = JS.Normal (Some rootless_space_connection).
Proof. reflexivity. Qed.

(** The indices of a string are those of its UTF-16 code units: the
    one code unit of [é] has the index 0 only. *)
Example hasOwnProperty_code_units :
  hasOwnProperty sample_heap (VString "é") "0" = JS.Normal true
  /\ hasOwnProperty sample_heap (VString "é") "1" = JS.Normal false
  /\ hasOwnProperty sample_heap (VString "é") "length" = JS.Normal true.
Proof. repeat split. Qed.
